(** * pygmdata: path/oid reconciliation of the GM-Data client

    A shallow embedding of [src/pygmdata/pygmdata.py] (class [Data]): the
    hierarchy cache ([populate_hierarchy], [find_file]), the directory
    builder ([make_directory_tree]), the metadata builder ([create_meta]),
    the part resolver ([get_part]) and the part sequencer
    ([_increment_char], [_increment_str]).

    Python strings are modelled as [string] (one byte per code point),
    Python values that travel through JSON as [pyval], the instance
    attribute [self.hierarchy] as a [gmap], and the methods that touch the
    cache or the network as functions in a state-and-exception monad over
    a [world].  Recursive methods take a fuel argument, the number of
    stack frames left; running out of it is Python's [RecursionError]. *)

From Stdlib Require Import ZArith String Ascii List Lia Permutation Sorted.
From stdpp Require Import gmap strings list.

Open Scope string_scope.

(** ** Python values *)

#[local] Set Warnings "-register-all".

(** The values that flow through the methods: [None], booleans, integers,
    strings, sequences (lists and tuples, which index alike) and
    dictionaries with string keys (JSON objects, in insertion order). *)
Inductive pyval : Type :=
| PNone
| PBool (b : bool)
| PInt (z : Z)
| PStr (s : string)
| PSeq (l : list pyval)
| PDict (d : list (string * pyval)).

(** [bool(v)], as used by [if v:] and [if not v:]. *)
Definition truthy (v : pyval) : bool :=
  match v with
  | PNone => false
  | PBool b => b
  | PInt z => negb (z =? 0)%Z
  | PStr s => negb (s =? "")
  | PSeq l => match l with [] => false | _ :: _ => true end
  | PDict d => match d with [] => false | _ :: _ => true end
  end.

(** A dictionary with string keys; [d[k]] and [d[k] = v]. *)
Abbreviation dict := (list (string * pyval)).

Fixpoint dict_get (k : string) (d : dict) : option pyval :=
  match d with
  | [] => None
  | (k', v) :: d' => if k' =? k then Some v else dict_get k d'
  end.

Fixpoint dict_set (k : string) (v : pyval) (d : dict) : dict :=
  match d with
  | [] => [(k, v)]
  | (k', v') :: d' =>
      if k' =? k then (k, v) :: d' else (k', v') :: dict_set k v d'
  end.

(** ** String methods *)

(** [s.rstrip(c)] for a one-character [c]. *)
Fixpoint rstrip (c : ascii) (s : string) : string :=
  match s with
  | "" => ""
  | String a s' =>
      match rstrip c s' with
      | "" => if Ascii.eqb a c then "" else String a ""
      | r => String a r
      end
  end.

(** [s[:-1]] and [s[-1]] (the latter is only evaluated on a non-empty [s]). *)
Fixpoint but_last (s : string) : string :=
  match s with
  | "" => ""
  | String a "" => ""
  | String a s' => String a (but_last s')
  end.

Fixpoint last_char (s : string) : ascii :=
  match s with
  | "" => "000"%char
  | String a "" => a
  | String _ s' => last_char s'
  end.

(** [c * n] for a one-character string. *)
Fixpoint times (c : ascii) (n : nat) : string :=
  match n with
  | O => ""
  | S n' => String c (times c n')
  end.

(** [s.split(sep)] for a one-character separator: never empty. *)
Fixpoint split (sep : ascii) (s : string) : list string :=
  match s with
  | "" => [""]
  | String a s' =>
      if Ascii.eqb a sep then "" :: split sep s'
      else match split sep s' with
           | [] => [String a ""]
           | p :: ps => String a p :: ps
           end
  end.

(** [sep.join(l)]. *)
Fixpoint join (sep : string) (l : list string) : string :=
  match l with
  | [] => ""
  | [x] => x
  | x :: l' => x +:+ sep +:+ join sep l'
  end.

(** [l.sort()] on a list of strings: ascending in the code-point order of
    [str], which is [String.leb]. *)
Fixpoint insert_sorted (x : string) (l : list string) : list string :=
  match l with
  | [] => [x]
  | y :: l' => if String.leb x y then x :: l else y :: insert_sorted x l'
  end.

Definition sort (l : list string) : list string :=
  fold_right insert_sorted [] l.

(** ** pathlib *)

(** A [PosixPath]: the root ([""], ["/"] or ["//"]) and the components
    that are neither empty nor ["."]. Two paths are equal, and hash alike,
    when both fields agree; a path never equals a [str]. *)
Record PosixPath : Type := mkPath { root : string; parts : list string }.

Definition path_root (s : string) : string :=
  match s with
  | String "/" (String "/" (String "/" _)) => "/"
  | String "/" (String "/" _) => "//"
  | String "/" _ => "/"
  | _ => ""
  end.

Definition Path (s : string) : PosixPath :=
  {| root := path_root s;
     parts := List.filter (fun p => negb (p =? "") && negb (p =? "."))
                (split "/" s) |}.

Definition path_parent (p : PosixPath) : PosixPath :=
  {| root := root p; parts := removelast (parts p) |}.

Definition path_name (p : PosixPath) : string := List.last (parts p) "".

Definition path_str (p : PosixPath) : string :=
  match parts p with
  | [] => if root p =? "" then "." else root p
  | _ :: _ => root p +:+ join "/" (parts p)
  end.

(** ** PartSequencer *)

(** [chr(ord(c) + 1) if c != 'z' else 'a'].  On the one-byte characters of
    the model [chr(ord(c) + 1)] is the next byte; byte 255, whose successor
    is no byte, is the only character where the model leaves Python. *)
Definition _increment_char (c : ascii) : ascii :=
  if negb (Ascii.eqb c "z") then ascii_of_N (N_of_ascii c + 1) else "a"%char.

Definition _increment_str (s : string) : string :=
  let lpart := rstrip "z" s in
  let num_replacements := (String.length s - String.length lpart)%nat in
  let new_s :=
    if negb (lpart =? "")
    then but_last lpart +:+ String (_increment_char (last_char lpart)) ""
    else "a" in
  new_s +:+ times "a" num_replacements.

(** ** Collaborators *)

(** One element of the JSON array answered by [GET /list/{oid}/]: its
    ['name'], its ['oid'] and, for files only, its ['isfile'] key. *)
Record entry : Type :=
  { e_name : string; e_oid : pyval; e_isfile : option pyval }.

(** What the class calls and does not define: the remote store behind
    [requests] ([remote] is its state; [http_list] and [http_props] are the
    decoded answers [r.json()] of the two GET requests, [http_write] the new
    state, [r.ok] and [r.json()[0]["oid"]] of [POST /write] with one
    metadata record), [json.loads] ([None] when it raises on the text),
    [json.dumps] and [mimetypes.guess_type].  The store answers every
    request: a connection that fails, or an answer that is not the JSON
    the code indexes, is outside the model. *)
Class Services : Type :=
  { remote : Type;
    http_list : remote -> pyval -> list entry;
    http_props : remote -> pyval -> dict;
    http_write : remote -> dict -> remote * (bool * pyval);
    json_loads : string -> option pyval;
    json_dumps : pyval -> string;
    guess_type : string -> option string * option string }.

(** ** Keys of [self.hierarchy] *)

(** The dictionary is keyed by whatever object the code stores under: a
    [str] ([populate_hierarchy], [upload_file]) or a [PosixPath]
    ([make_directory_tree]). *)
Inductive hkey : Type :=
| StrKey (s : string)
| PathKey (p : PosixPath).

#[global] Instance PosixPath_eq_dec : EqDecision PosixPath.
Proof. solve_decision. Defined.

#[global] Instance PosixPath_countable : Countable PosixPath.
Proof.
  apply (inj_countable' (fun p => (root p, parts p))
           (fun t => mkPath (fst t) (snd t))).
  intros []; reflexivity.
Defined.

#[global] Instance hkey_eq_dec : EqDecision hkey.
Proof. solve_decision. Defined.

#[global] Instance hkey_countable : Countable hkey.
Proof.
  apply (inj_countable'
           (fun k => match k with StrKey s => inl s | PathKey p => inr p end)
           (fun t => match t with inl s => StrKey s | inr p => PathKey p end)).
  intros []; reflexivity.
Defined.

(** The path a key stands for. *)
Definition key_path (k : hkey) : string :=
  match k with
  | StrKey s => s
  | PathKey p => path_str p
  end.

(** ** Exceptions and outcomes *)

Inductive exn : Type :=
| KeyError
| TypeError
| IndexError
| JSONDecodeError
| RecursionError.

Inductive outcome (A : Type) : Type :=
| Return (a : A)
| Raise (e : exn).
Arguments Return {A} a.
Arguments Raise {A} e.

(** A request sent to the remote store. *)
Inductive call : Type :=
| CList (oid : pyval)
| CProps (oid : pyval)
| CWrite (body : dict).

(** The directory writes among a list of requests, as (name, parentoid). *)
Definition written (cs : list call) : list (option pyval * option pyval) :=
  flat_map (fun c => match c with
                     | CWrite b => [(dict_get "name" b, dict_get "parentoid" b)]
                     | _ => []
                     end) cs.

(** ** The client: state, monad and methods *)

Section Data.
Context {SV : Services}.

(** What a method can see and change: [self.hierarchy], the remote store,
    and (for the proofs) the requests sent so far, oldest first. *)
Record world : Type :=
  mkWorld { hierarchy : gmap hkey pyval; store : remote; calls : list call }.

(** A method body: it ends by returning or by raising, and either way
    leaves a world behind. *)
Definition M (A : Type) : Type := world -> outcome A * world.

Definition ret {A} (a : A) : M A := fun w => (Return a, w).
Definition raise {A} (e : exn) : M A := fun w => (Raise e, w).
Definition bind {A B} (m : M A) (k : A -> M B) : M B :=
  fun w => match m w with
           | (Return a, w') => k a w'
           | (Raise e, w') => (Raise e, w')
           end.

Notation "x <- m ;; k" := (bind m (fun x => k))
  (at level 100, m at next level, right associativity).
Notation "m ;; k" := (bind m (fun _ => k))
  (at level 100, right associativity).

(** [for j in l: body(j)]. *)
Fixpoint for_each {A} (l : list A) (body : A -> M unit) : M unit :=
  match l with
  | [] => ret tt
  | j :: l' => body j ;; for_each l' body
  end.

(** [self.hierarchy.get(k)] as an option, and [self.hierarchy[k] = v]. *)
Definition lookup_h (k : hkey) : M (option pyval) :=
  fun w => (Return (hierarchy w !! k), w).

Definition record (k : hkey) (v : pyval) : M unit :=
  fun w => (Return tt, mkWorld (<[k := v]> (hierarchy w)) (store w) (calls w)).

(** The three requests. *)
Definition get_list (oid : pyval) : M (list entry) :=
  fun w => (Return (http_list (store w) oid),
            mkWorld (hierarchy w) (store w) (calls w ++ [CList oid])).

Definition get_props (oid : pyval) : M dict :=
  fun w => (Return (http_props (store w) oid),
            mkWorld (hierarchy w) (store w) (calls w ++ [CProps oid])).

Definition post_write (body : dict) : M (bool * pyval) :=
  fun w => let '(st, r) := http_write (store w) body in
           (Return r, mkWorld (hierarchy w) st (calls w ++ [CWrite body])).

(** [d[k]], [json.loads(v)] and [v[0]], with the exceptions they raise. *)
Definition getitem (d : dict) (k : string) : M pyval :=
  match dict_get k d with
  | Some v => ret v
  | None => raise KeyError
  end.

Definition loads (v : pyval) : M pyval :=
  match v with
  | PStr s => match json_loads s with
              | Some j => ret j
              | None => raise JSONDecodeError
              end
  | _ => raise TypeError
  end.

Definition index0 (v : pyval) : M pyval :=
  match v with
  | PSeq (x :: _) => ret x
  | PSeq [] => raise IndexError
  | PStr (String c _) => ret (PStr (String c ""))
  | PStr "" => raise IndexError
  | PDict _ => raise KeyError
  | _ => raise TypeError
  end.

(** *** HierarchyCache *)

Fixpoint populate_hierarchy (n : nat) (path : string) (oid : pyval) : M unit :=
  match n with
  | O => raise RecursionError
  | S n' =>
      r <- get_list oid ;;
      let path := if path =? "/" then "" else path in
      for_each r (fun j =>
        let filepath := path +:+ "/" +:+ e_name j in
        record (StrKey filepath) (e_oid j) ;;
        match e_isfile j with
        | Some _ => ret tt
        | None => populate_hierarchy n' filepath (e_oid j)
        end)
  end.

Definition find_file (n : nat) (filename : string) : M pyval :=
  o <- lookup_h (StrKey filename) ;;
  match o with
  | Some oid => ret oid
  | None =>
      populate_hierarchy n "/" (PInt 1) ;;
      o <- lookup_h (StrKey filename) ;;
      match o with
      | Some oid => ret oid
      | None => ret PNone
      end
  end.

(** *** DirectoryTreeBuilder *)

(** [security] is [kwargs.get('security')]: [None] when the key is absent. *)
Fixpoint make_directory_tree (n : nat) (path : string) (object_policy : pyval)
    (security : option pyval) : M pyval :=
  match n with
  | O => raise RecursionError
  | S n' =>
      let path := Path path in
      oid <- find_file n' (path_str (path_parent path)) ;;
      (if negb (truthy oid)
       then make_directory_tree n' (path_str (path_parent path))
              object_policy security ;; ret tt
       else ret tt) ;;
      oid <- find_file n' (path_str (path_parent path)) ;;
      r <- get_props oid ;;
      object_policy <-
        (if negb (truthy object_policy)
         then p <- getitem r "objectpolicy" ;; ret (PStr (json_dumps p))
         else ret object_policy) ;;
      p <- loads object_policy ;;
      let body := [("action", PStr "U"); ("name", PStr (path_name path));
                   ("parentoid", oid); ("isFile", PBool false);
                   ("objectpolicy", p)] in
      body <-
        (if truthy object_policy
         then p <- loads object_policy ;; ret (dict_set "objectpolicy" p body)
         else p <- getitem r "objectpolicy" ;;
              ret (dict_set "objectpolicy" p body)) ;;
      body <-
        match security with
        | Some s => if truthy s then ret (dict_set "security" s body)
                    else ret body
        | None => r <- get_props oid ;;
                  s <- getitem r "security" ;;
                  ret (dict_set "security" s body)
        end ;;
      res <- post_write body ;;
      let '(ok, oid) := res in
      (if ok then record (PathKey path) oid else ret tt) ;;
      ret oid
  end.

(** *** MetadataBuilder *)

(** The keyword arguments [create_meta] reads; [None] is an absent key. *)
Record kwargs : Type :=
  { kw_mimetype : option pyval;
    kw_local_filename : option string;
    kw_security : option pyval }.

Definition no_kwargs : kwargs :=
  {| kw_mimetype := None; kw_local_filename := None; kw_security := None |}.

Definition opt_str (o : option string) : pyval :=
  match o with Some s => PStr s | None => PNone end.

(** The tuple returned by [mimetypes.guess_type]. *)
Definition guess (f : string) : pyval :=
  let '(t, e) := guess_type f in PSeq [opt_str t; opt_str e].

Definition create_meta (n : nat) (data_filename : string)
    (object_policy : pyval) (kw : kwargs) : M dict :=
  oid <- find_file n data_filename ;;
  let mimetype :=
    match kw_mimetype kw with
    | Some m => m
    | None => match kw_local_filename kw with
              | Some f => guess f
              | None => guess data_filename
              end
    end in
  if truthy oid then
    r <- get_props oid ;;
    let meta := dict_set "action" (PStr "C") r in
    meta <-
      (if truthy object_policy
       then match object_policy with
            | PStr _ => p <- loads object_policy ;;
                        ret (dict_set "objectpolicy" p meta)
            | _ => ret (dict_set "objectpolicy" object_policy meta)
            end
       else ret meta) ;;
    match kw_security kw with
    | Some s => if truthy s then ret (dict_set "security" s meta) else ret meta
    | None => ret meta
    end
  else
    let path := Path data_filename in
    oid <- find_file n (path_str (path_parent path)) ;;
    oid <-
      (if negb (truthy oid)
       then make_directory_tree n (path_str (path_parent path))
              object_policy None
       else ret oid) ;;
    object_policy <-
      (if negb (truthy object_policy)
       then r <- get_props oid ;; getitem r "objectpolicy"
       else loads object_policy) ;;
    m0 <- index0 mimetype ;;
    let meta := [("action", PStr "C"); ("name", PStr (path_name path));
                 ("parentoid", oid); ("isFile", PBool true);
                 ("objectpolicy", object_policy); ("mimetype", m0)] in
    match kw_security kw with
    | Some s => if truthy s then ret (dict_set "security" s meta) else ret meta
    | None => r <- get_props oid ;;
              s <- getitem r "security" ;;
              ret (dict_set "security" s meta)
    end.

(** *** PartResolver *)

(** [[name['name'] for name in r.json() if 'isfile' in name.keys()]]. *)
Definition file_names (listing : list entry) : list string :=
  List.map e_name
    (List.filter (fun j => match e_isfile j with
                           | Some _ => true
                           | None => false
                           end) listing).

(** The tail of [get_part], from the listing [r.json()] on: the names of
    the entries that have an ['isfile'] key, sorted; ["aaa"] when there is
    none, else the successor of the last name cut at its first dot. *)
Definition next_part (listing : list entry) : string :=
  let names := sort (file_names listing) in
  match names with
  | [] => "aaa"
  | _ :: _ => _increment_str (List.hd "" (split "." (List.last names "")))
  end.

Definition get_part (n : nat) (data_filename : string)
    (object_policy : pyval) : M string :=
  o <- lookup_h (StrKey data_filename) ;;
  st <-
    match o with
    | None =>
        oid <- find_file n data_filename ;;
        if negb (truthy oid)
        then oid <- make_directory_tree n data_filename object_policy None ;;
             ret (oid, Some "aaa")
        else ret (oid, None)
    | Some oid =>
        r <- get_props oid ;;
        match dict_get "isfile" r with
        | Some b =>
            if truthy b
            then match dict_get "parentoid" r with
                 | Some p => ret (p, None)
                 | None => ret (oid, None)
                 end
            else ret (oid, None)
        | None => ret (oid, None)
        end
    end ;;
  let '(oid, part) := st in
  match part with
  | Some p => ret p
  | None => r <- get_list oid ;; ret (next_part r)
  end.

End Data.

(** ** A remote store to run the methods against *)

(** A node of the remote tree (spec, data model): oid, name, parent oid,
    whether it is a file, object policy and security tag. *)
Record node : Type :=
  { n_oid : Z; n_name : string; n_parent : Z; n_isfile : bool;
    n_policy : pyval; n_security : string }.

(** Modelled from the spec: the remote store behind the TransportClient
    (spec 4.5 and 6), which is not part of the repository.  [GET /list]
    answers the children of an oid, with an ['isfile'] key on files only;
    [GET /props] answers the node's properties; [POST /write] of a
    directory record is an upsert on (parent oid, name): an existing node
    keeps its oid and takes the record's policy and security, a new one
    gets the next free oid. *)
Definition store_list (st : list node) (oid : pyval) : list entry :=
  match oid with
  | PInt z =>
      List.map (fun nd => {| e_name := n_name nd; e_oid := PInt (n_oid nd);
                             e_isfile := if n_isfile nd then Some (PBool true)
                                         else None |})
        (List.filter (fun nd => (n_parent nd =? z)%Z) st)
  | _ => []
  end.

Definition store_props (st : list node) (oid : pyval) : dict :=
  match oid with
  | PInt z =>
      match List.find (fun nd => (n_oid nd =? z)%Z) st with
      | Some nd =>
          ([("oid", PInt (n_oid nd)); ("name", PStr (n_name nd));
            ("parentoid", PInt (n_parent nd));
            ("objectpolicy", n_policy nd); ("security", PStr (n_security nd))]
           ++ (if n_isfile nd then [("isfile", PBool true)] else []))%list
      | None => []
      end
  | _ => []
  end.

Definition fresh_oid (st : list node) : Z :=
  (1 + fold_right Z.max 0 (List.map n_oid st))%Z.

Definition str_of (o : option pyval) : string :=
  match o with Some (PStr s) => s | _ => "" end.

Definition store_write (st : list node) (body : dict)
    : list node * (bool * pyval) :=
  match dict_get "name" body, dict_get "parentoid" body,
        dict_get "objectpolicy" body with
  | Some (PStr nm), Some (PInt par), Some pol =>
      let same nd := (n_parent nd =? par)%Z && (n_name nd =? nm) in
      let sec := str_of (dict_get "security" body) in
      match List.find same st with
      | Some nd =>
          (List.map (fun x => if same x
                              then {| n_oid := n_oid x; n_name := nm;
                                      n_parent := par; n_isfile := n_isfile x;
                                      n_policy := pol; n_security := sec |}
                              else x) st,
           (true, PInt (n_oid nd)))
      | None =>
          ((st ++ [{| n_oid := fresh_oid st; n_name := nm; n_parent := par;
                      n_isfile := false; n_policy := pol;
                      n_security := sec |}])%list,
           (true, PInt (fresh_oid st)))
      end
  | _, _, _ => (st, (false, PNone))
  end.

(** The values of [json.dumps], [json.loads] and [mimetypes.guess_type] at
    the policies and names of the scenarios: a policy [{"label": l}] and
    its text, and [text/plain] for a name ending in [.txt]. *)
Definition dq : string := String "034"%char "".

Definition policy (l : string) : pyval := PDict [("label", PStr l)].

Definition policy_text (l : string) : string :=
  "{" +:+ dq +:+ "label" +:+ dq +:+ ": " +:+ dq +:+ l +:+ dq +:+ "}".

Definition scenario_dumps (v : pyval) : string :=
  match v with
  | PDict [(k, PStr l)] => if k =? "label" then policy_text l else "null"
  | _ => "null"
  end.

Definition scenario_loads (s : string) : option pyval :=
  if s =? policy_text "P0" then Some (policy "P0")
  else if s =? policy_text "P1" then Some (policy "P1")
  else None.

Definition scenario_guess (f : string) : option string * option string :=
  match List.rev (split "." f) with
  | "txt" :: _ :: _ => (Some "text/plain", None)
  | _ => (None, None)
  end.

Definition scenario : Services :=
  {| remote := list node;
     http_list := store_list;
     http_props := store_props;
     http_write := store_write;
     json_loads := scenario_loads;
     json_dumps := scenario_dumps;
     guess_type := scenario_guess |}.

Definition dir_node (oid : Z) (name : string) (parent : Z) : node :=
  {| n_oid := oid; n_name := name; n_parent := parent; n_isfile := false;
     n_policy := policy "P0"; n_security := "S0" |}.

Definition file_node (oid : Z) (name : string) (parent : Z) : node :=
  {| n_oid := oid; n_name := name; n_parent := parent; n_isfile := true;
     n_policy := policy "P0"; n_security := "S0" |}.

(** The root directory has oid 1 and is nobody's child. *)
Definition root_node : node := dir_node 1 "" 0.

(** The world a method leaves, and what it returned. *)
Definition after {SV : Services} {A} (m : @M SV A) (w : world) : world :=
  snd (m w).
Definition result {SV : Services} {A} (m : @M SV A) (w : world) : outcome A :=
  fst (m w).

(** A client whose cache is empty (built while the remote tree was still
    empty) in front of the given tree, and a client just built in front of
    it: [__init__] runs [populate_hierarchy("/", 1)]. *)
Definition fresh (st : list node) : @world scenario :=
  @mkWorld scenario ∅ st [].

Definition connected (st : list node) : @world scenario :=
  after (populate_hierarchy 10 "/" (PInt 1)) (fresh st).

(** The empty remote tree, and the trees of the scenarios. *)
Definition empty_tree : list node := [root_node].
Definition tree_a : list node := [root_node; dir_node 2 "a" 1].
Definition tree_file : list node := [root_node; file_node 2 "log" 1].
Definition tree_parts : list node :=
  [root_node; dir_node 2 "log" 1; file_node 3 "aaa" 2; file_node 4 "aab" 2].

(** ** Vocabulary of the properties *)

(** A character in [a]..[z], and a string of exactly three of them. *)
Definition lowercase (c : ascii) : bool :=
  (Ascii.leb "a" c && Ascii.leb c "z")%char.

Definition lowercase3 (s : string) : bool :=
  match s with
  | String c1 (String c2 (String c3 "")) =>
      lowercase c1 && lowercase c2 && lowercase c3
  | _ => false
  end.

(** The order of [str]: [s <= t]. *)
Definition le_str (s t : string) : Prop := String.leb s t = true.


(** From any world, [m] only appends requests to those already sent, and
    every request it appends satisfies [P]. *)
Definition sends_only {SV : Services} {A} (P : call -> Prop) (m : M A)
    : Prop :=
  forall w, exists cs,
    calls (after m w) = (calls w ++ cs)%list /\ Forall P cs.

(** A request that is a listing; a request that, if it is a write, writes
    a record with the object policy [p]. *)
Definition is_listing (c : call) : Prop :=
  match c with CList _ => True | _ => False end.


(** Whenever [m] returns, the value satisfies [Q]. *)
Definition returns {SV : Services} {A} (Q : A -> Prop) (m : M A) : Prop :=
  forall w a w', m w = (Return a, w') -> Q a.


(** ** Uploads *)

(** What [upload_file] needs beyond [Services]: the local file system
    ([open_rb name] is [open(name, 'rb')], [None] when it raises [OSError])
    and the answer of [POST /write] to one metadata record sent with a
    blob (the new state, [r.ok] and [r.json()[0]["oid"]]). *)
Class Files {SV : Services} : Type :=
  { blob : Type;
    open_rb : string -> option blob;
    http_upload : remote -> dict -> blob -> remote * (bool * pyval) }.

(** How [upload_file] ends when nothing of the core raises: it returns
    [r.ok], or [open] raised [OSError]. *)
Inductive upload_result : Type :=
| Uploaded (ok : bool)
| OSError.

Section Upload.
Context {SV : Services} {FS : Files}.

Notation "x <- m ;; k" := (bind m (fun x => k))
  (at level 100, m at next level, right associativity).
Notation "m ;; k" := (bind m (fun _ => k))
  (at level 100, right associativity).

Definition post_upload (meta : dict) (f : blob) : M (bool * pyval) :=
  fun w => let '(st, r) := http_upload (store w) meta f in
           (Return r, mkWorld (hierarchy w) st (calls w ++ [CWrite meta])).

(** [mimetype] and [security] are the two keys [**kwargs] may carry. *)
Definition upload_file (n : nat) (local_filename data_filename : string)
    (object_policy : pyval) (mimetype security : option pyval)
    : M upload_result :=
  meta <- create_meta n data_filename object_policy
            {| kw_mimetype := mimetype;
               kw_local_filename := Some local_filename;
               kw_security := security |} ;;
  match open_rb local_filename with
  | None => ret OSError
  | Some f =>
      res <- post_upload meta f ;;
      let '(ok, oid) := res in
      (if ok then record (StrKey data_filename) oid else ret tt) ;;
      ret (Uploaded ok)
  end.

Definition append_file (n : nat) (local_filename data_filename : string)
    (object_policy : pyval) : M upload_result :=
  part <- get_part n data_filename object_policy ;;
  upload_file n local_filename (data_filename +:+ "/" +:+ part)
    object_policy None None.

End Upload.

(** Modelled from the spec: the remote store's answer to a file upload
    (spec 6), an upsert on (parent oid, name) like a directory write, the
    node being a file; the content is not kept. *)
Definition store_upload (st : list node) (meta : dict) (content : string)
    : list node * (bool * pyval) :=
  match dict_get "name" meta, dict_get "parentoid" meta,
        dict_get "objectpolicy" meta with
  | Some (PStr nm), Some (PInt par), Some pol =>
      let same nd := (n_parent nd =? par)%Z && (n_name nd =? nm) in
      let sec := str_of (dict_get "security" meta) in
      match List.find same st with
      | Some nd =>
          (List.map (fun x => if same x
                              then {| n_oid := n_oid x; n_name := nm;
                                      n_parent := par; n_isfile := true;
                                      n_policy := pol; n_security := sec |}
                              else x) st,
           (true, PInt (n_oid nd)))
      | None =>
          ((st ++ [{| n_oid := fresh_oid st; n_name := nm; n_parent := par;
                      n_isfile := true; n_policy := pol;
                      n_security := sec |}])%list,
           (true, PInt (fresh_oid st)))
      end
  | _, _, _ => (st, (false, PNone))
  end.

(** A local file system with the one file [local.txt]. *)
Definition scenario_files : @Files scenario :=
  @Build_Files scenario string
    (fun name => if name =? "local.txt" then Some "hello" else None)
    store_upload.

(** ** Vocabulary of the further properties *)

(** A string of lowercase letters, of any width. *)
Fixpoint all_lowercase (s : string) : bool :=
  match s with
  | "" => true
  | String c s' => lowercase c && all_lowercase s'
  end.

(** A string of lowercase letters read as a number in base 26, [a] being
    the digit 0. *)
Definition digit (c : ascii) : N := (N_of_ascii c - 97)%N.

Fixpoint value26_from (acc : N) (s : string) : N :=
  match s with
  | "" => acc
  | String c s' => value26_from (acc * 26 + digit c)%N s'
  end.

Definition value26 (s : string) : N := value26_from 0 s.

(** A request other than a write. *)
Definition no_write (c : call) : Prop :=
  match c with CWrite _ => False | _ => True end.

(** From [w] to [w']: the remote store is the same, no key of the cache
    was dropped, the entries under [PosixPath] keys are the same, and
    requests were only appended. *)
Definition refreshed {SV : Services} (w w' : world) : Prop :=
  store w' = store w /\
  (forall k, is_Some (hierarchy w !! k) -> is_Some (hierarchy w' !! k)) /\
  (forall p, hierarchy w' !! PathKey p = hierarchy w !! PathKey p) /\
  exists cs, calls w' = (calls w ++ cs)%list.

(** The path under which [populate_hierarchy] stores an entry listed for
    the directory of path [path]: ["/"] counts as the empty prefix. *)
Definition child_path (path : string) (j : entry) : string :=
  (if path =? "/" then "" else path) +:+ "/" +:+ e_name j.

(** The directories of the remote tree below the directory [oid] of path
    [p]: that directory, and every entry without an ['isfile'] key listed
    for a directory below it, under its path. *)
Inductive walked {SV : Services} (st : remote)
    : string -> pyval -> string -> pyval -> Prop :=
| walked_here (p : string) (oid : pyval) : walked st p oid p oid
| walked_down (p : string) (oid : pyval) (j : entry) (q : string) (o : pyval) :
    In j (http_list st oid) -> e_isfile j = None ->
    walked st (child_path p j) (e_oid j) q o ->
    walked st p oid q o.

(** Below [oid], directories are nested less than [d] deep. *)
Fixpoint depth_below {SV : Services} (d : nat) (st : remote) (oid : pyval)
    : Prop :=
  match d with
  | O => False
  | S d' => forall j, In j (http_list st oid) -> e_isfile j = None ->
                      depth_below d' st (e_oid j)
  end.

(** * Properties *)

(** ** pathlib, as the methods use it *)

Example parent_of_nested : path_str (path_parent (Path "/a/b/c")) = "/a/b".
Proof. reflexivity. Qed.

Example parent_of_top : path_str (path_parent (Path "/a")) = "/".
Proof. reflexivity. Qed.

(** The root is its own parent, and so is the current directory. *)
Example parent_of_root : path_str (path_parent (Path "/")) = "/".
Proof. reflexivity. Qed.

Example parent_of_relative : path_str (path_parent (Path "a")) = "."
                             /\ path_str (path_parent (Path ".")) = ".".
Proof. split; reflexivity. Qed.

Example name_of_nested : path_name (Path "/a//b/./c.txt/") = "c.txt".
Proof. reflexivity. Qed.

(** ** Strings, dictionaries and sorting *)

Lemma dict_get_set (k k' : string) (v : pyval) (d : dict) :
  dict_get k (dict_set k' v d) = if k' =? k then Some v else dict_get k d.
Proof.
  induction d as [|[k0 v0] d IH]; simpl.
  - reflexivity.
  - destruct (String.eqb_spec k0 k') as [->|Hne]; simpl.
    + destruct (k' =? k); reflexivity.
    + rewrite IH. destruct (String.eqb_spec k0 k) as [->|Hk]; [|reflexivity].
      destruct (String.eqb_spec k' k) as [->|]; [congruence|reflexivity].
Qed.

Lemma ascii_compare_refl (c : ascii) : (c ?= c)%char = Eq.
Proof. unfold Ascii.compare. apply N.compare_refl. Qed.

Lemma string_compare_refl (s : string) : (s ?= s)%string = Eq.
Proof.
  induction s as [|a s IH]; simpl; [reflexivity|].
  now rewrite ascii_compare_refl.
Qed.

Lemma ltb_neq (s t : string) : String.ltb s t = true -> t <> s.
Proof.
  unfold String.ltb. intros H ->. rewrite string_compare_refl in H.
  discriminate.
Qed.

Lemma le_str_refl (s : string) : le_str s s.
Proof. unfold le_str, String.leb. now rewrite string_compare_refl. Qed.

Lemma le_str_trans (s : string) :
  forall t u, le_str s t -> le_str t u -> le_str s u.
Proof.
  unfold le_str, String.leb.
  induction s as [|a s IH]; intros [|b t] [|c u]; simpl; try easy.
  unfold Ascii.compare.
  destruct (N.compare_spec (N_of_ascii a) (N_of_ascii b)) as [E1|L1|G1],
           (N.compare_spec (N_of_ascii b) (N_of_ascii c)) as [E2|L2|G2],
           (N.compare_spec (N_of_ascii a) (N_of_ascii c)) as [E3|L3|G3];
    try easy; try lia.
  apply IH.
Qed.

(** A lowercase letter other than [z] is followed by a greater lowercase
    letter. *)
Lemma lowercase_step (c : ascii) :
  lowercase c = true -> c <> "z"%char ->
  Ascii.eqb c "z" = false /\
  (c ?= _increment_char c)%char = Lt /\
  lowercase (_increment_char c) = true.
Proof.
  intros Hl Hz.
  destruct c as [[] [] [] [] [] [] [] []]; try discriminate Hl;
    try (exfalso; apply Hz; reflexivity); repeat split; reflexivity.
Qed.

Lemma rstrip_all (c : ascii) (n : nat) : rstrip c (times c n) = "".
Proof.
  induction n as [|n IH]; simpl; [reflexivity|].
  now rewrite IH, Ascii.eqb_refl.
Qed.

Lemma length_times (c : ascii) (n : nat) : String.length (times c n) = n.
Proof. induction n as [|n IH]; simpl; [reflexivity|]. now rewrite IH. Qed.

(** [sort] permutes its argument into ascending order, so that its last
    element is a greatest one. *)
Lemma insert_sorted_perm (x : string) (l : list string) :
  Permutation (insert_sorted x l) (x :: l).
Proof.
  induction l as [|y l IH]; simpl; [reflexivity|].
  destruct (String.leb x y); [reflexivity|].
  rewrite IH. apply perm_swap.
Qed.

Lemma sort_perm (l : list string) : Permutation (sort l) l.
Proof.
  induction l as [|x l IH]; simpl; [reflexivity|].
  now rewrite insert_sorted_perm, IH.
Qed.

Lemma insert_sorted_sorted (x : string) (l : list string) :
  StronglySorted le_str l -> StronglySorted le_str (insert_sorted x l).
Proof.
  induction 1 as [|y l Hs IH Hy]; simpl.
  - repeat constructor.
  - destruct (String.leb x y) eqn:E.
    + constructor; [constructor; assumption|].
      constructor; [exact E|].
      eapply Forall_impl; [exact Hy|].
      intros z Hz. eapply le_str_trans; eassumption.
    + constructor; [exact IH|].
      eapply Permutation_Forall; [symmetry; apply insert_sorted_perm|].
      constructor; [|exact Hy].
      destruct (String.leb_total x y) as [H|H]; [congruence|exact H].
Qed.

Lemma sort_sorted (l : list string) : StronglySorted le_str (sort l).
Proof.
  induction l as [|x l IH]; simpl; [constructor|].
  now apply insert_sorted_sorted.
Qed.

Lemma sorted_last_max (l : list string) (d : string) :
  StronglySorted le_str l -> forall x, In x l -> le_str x (List.last l d).
Proof.
  induction 1 as [|y l Hs IH Hy]; intros x Hx; [destruct Hx|].
  destruct l as [|z l].
  - destruct Hx as [<-|[]]. apply le_str_refl.
  - change (List.last (y :: z :: l) d) with (List.last (z :: l) d).
    destruct Hx as [<-|Hx]; [|now apply IH].
    eapply le_str_trans; [|apply IH; left; reflexivity].
    rewrite Forall_forall in Hy. apply Hy. now left.
Qed.

Lemma last_in (l : list string) (d : string) :
  l <> [] -> In (List.last l d) l.
Proof.
  induction l as [|x [|y l] IH]; intros H; [congruence|now left|].
  right. apply IH. discriminate.
Qed.

(** [next_part] is ["aaa"] without file names, and else the successor of
    a greatest file name cut at its first dot. *)
Lemma next_part_max (listing : list entry) :
  match file_names listing with
  | [] => next_part listing = "aaa"
  | _ :: _ =>
      exists m, In m (file_names listing) /\
                (forall x, In x (file_names listing) -> le_str x m) /\
                next_part listing = _increment_str (List.hd "" (split "." m))
  end.
Proof.
  unfold next_part.
  pose proof (sort_perm (file_names listing)) as Hp.
  destruct (file_names listing) as [|x l] eqn:E.
  - reflexivity.
  - destruct (sort (x :: l)) as [|y s] eqn:Es.
    { apply Permutation_nil in Hp. discriminate. }
    exists (List.last (y :: s) ""). rewrite <- Es in *. repeat split.
    + eapply Permutation_in; [exact Hp|]. apply last_in. rewrite Es.
      discriminate.
    + intros z Hz. apply (sorted_last_max _ _ (sort_sorted _)).
      eapply Permutation_in; [symmetry; exact Hp|exact Hz].
Qed.

(** ** Requests sent by the methods *)

Section Trace.
Context {SV : Services}.
Variable P : call -> Prop.

Lemma so_silent {A} (m : M A) :
  (forall w, calls (after m w) = calls w) -> sends_only P m.
Proof.
  intros H w. exists []. rewrite H, app_nil_r.
  split; [reflexivity|constructor].
Qed.

Lemma so_ret {A} (a : A) : sends_only P (ret a).
Proof. now apply so_silent. Qed.

Lemma so_raise {A} (e : exn) : sends_only P (@raise _ A e).
Proof. now apply so_silent. Qed.

Lemma so_lookup_h (k : hkey) : sends_only P (lookup_h k).
Proof. now apply so_silent. Qed.

Lemma so_record (k : hkey) (v : pyval) : sends_only P (record k v).
Proof. now apply so_silent. Qed.


Lemma so_get_list (oid : pyval) :
  P (CList oid) -> sends_only P (get_list oid).
Proof.
  intros HP w. exists [CList oid]. split; [reflexivity|].
  repeat constructor. exact HP.
Qed.

Lemma so_get_props (oid : pyval) :
  P (CProps oid) -> sends_only P (get_props oid).
Proof.
  intros HP w. exists [CProps oid]. split; [reflexivity|].
  repeat constructor. exact HP.
Qed.


Lemma so_bind_post {A B} (Q : A -> Prop) (m : M A) (k : A -> M B) :
  sends_only P m -> returns Q m -> (forall a, Q a -> sends_only P (k a)) ->
  sends_only P (bind m k).
Proof.
  intros Hm HQ Hk w. destruct (Hm w) as (cs1 & E1 & F1).
  unfold after, bind in *. destruct (m w) as [[a|e] w1] eqn:E; simpl in *.
  - destruct (Hk a (HQ _ _ _ E) w1) as (cs2 & E2 & F2).
    exists (cs1 ++ cs2)%list.
    unfold after in E2. rewrite E2, E1, app_assoc.
    split; [reflexivity|]. apply Forall_app; auto.
  - exists cs1. auto.
Qed.

Lemma so_bind {A B} (m : M A) (k : A -> M B) :
  sends_only P m -> (forall a, sends_only P (k a)) -> sends_only P (bind m k).
Proof.
  intros Hm Hk. apply so_bind_post with (Q := fun _ => True); auto.
  intros w a w' _. exact I.
Qed.

Lemma so_bind_ret {A B} (a : A) (k : A -> M B) :
  sends_only P (k a) -> sends_only P (bind (ret a) k).
Proof. intros H w. exact (H w). Qed.

Lemma so_for_each {A} (l : list A) (body : A -> M unit) :
  (forall j, sends_only P (body j)) -> sends_only P (for_each l body).
Proof.
  intros H. induction l as [|j l IH]; simpl.
  - apply so_ret.
  - apply so_bind; auto.
Qed.

(** The cache methods send listings and nothing else. *)
Hypothesis listings : forall oid, P (CList oid).

Lemma so_populate_hierarchy (n : nat) :
  forall path oid, sends_only P (populate_hierarchy n path oid).
Proof.
  induction n as [|n IH]; intros path oid; simpl.
  - apply so_raise.
  - apply so_bind; [apply so_get_list, listings|]. intros r.
    apply so_for_each. intros j.
    apply so_bind; [apply so_record|]. intros _.
    destruct (e_isfile j); [apply so_ret|apply IH].
Qed.

Lemma so_find_file (n : nat) (filename : string) :
  sends_only P (find_file n filename).
Proof.
  unfold find_file. apply so_bind; [apply so_lookup_h|]. intros [oid|].
  - apply so_ret.
  - apply so_bind; [apply so_populate_hierarchy|]. intros _.
    apply so_bind; [apply so_lookup_h|]. intros [oid|]; apply so_ret.
Qed.

End Trace.

(** ** The methods, over any remote store *)

Section Facts.
Context {SV : Services}.

(** Every match of [H] whose scrutinee holds no other match is split, the
    innermost first. *)
Ltac run H :=
  repeat (simpl in H;
          match type of H with
          | context [match ?x with _ => _ end] =>
              lazymatch x with
              | context [match _ with _ => _ end] => fail
              | _ => destruct x eqn:?
              end
          end); simpl in H.

Lemma find_file_hit (n : nat) (filename : string) (w : world) (oid : pyval) :
  hierarchy w !! StrKey filename = Some oid ->
  find_file n filename w = (Return oid, w).
Proof. intros H. unfold find_file, bind, lookup_h. now rewrite H. Qed.

(** With the parent in the cache, [make_directory_tree] does not recurse:
    it reads the parent's properties twice (policy, then security tag) and
    sends one write for [path], whether [path] already exists or not. *)
Lemma ensure_one_step (n : nat) (path : string) (w : world)
    (oid p0 p s0 : pyval) :
  hierarchy w !! StrKey (path_str (path_parent (Path path))) = Some oid ->
  truthy oid = true ->
  dict_get "objectpolicy" (http_props (store w) oid) = Some p0 ->
  json_dumps p0 <> "" ->
  json_loads (json_dumps p0) = Some p ->
  dict_get "security" (http_props (store w) oid) = Some s0 ->
  let body := [("action", PStr "U"); ("name", PStr (path_name (Path path)));
               ("parentoid", oid); ("isFile", PBool false);
               ("objectpolicy", p); ("security", s0)] in
  make_directory_tree (S n) path PNone None w =
  (Return (snd (snd (http_write (store w) body))),
   mkWorld (if fst (snd (http_write (store w) body))
            then <[PathKey (Path path) := snd (snd (http_write (store w) body))]>
                   (hierarchy w)
            else hierarchy w)
     (fst (http_write (store w) body))
     (calls w ++ [CProps oid; CProps oid; CWrite body])).
Proof.
  intros Hh Ht Hp Hd Hl Hs body.
  cbn [make_directory_tree]. unfold bind at 1.
  rewrite (find_file_hit _ _ _ _ Hh), Ht. cbn [negb].
  unfold bind at 1. unfold ret at 1. unfold bind at 1.
  rewrite (find_file_hit _ _ _ _ Hh).
  unfold bind, get_props, getitem, loads, post_write, record, ret. simpl.
  rewrite Hp. simpl.
  destruct (String.eqb_spec (json_dumps p0) "") as [|_]; [contradiction|].
  simpl. rewrite Hl. cbn [hierarchy store calls]. rewrite Hs.
  cbn [dict_set String.eqb Ascii.eqb Bool.eqb]. fold body.
  cbn [hierarchy store calls].
  destruct (http_write (store w) body) as [st [ok new]].
  destruct ok; cbn [fst snd hierarchy store calls];
    rewrite <- !app_assoc; reflexivity.
Qed.

Lemma populate_nothing (n : nat) (w : world) :
  http_list (store w) (PInt 1) = [] ->
  populate_hierarchy (S n) "/" (PInt 1) w =
  (Return tt, mkWorld (hierarchy w) (store w) (calls w ++ [CList (PInt 1)])).
Proof.
  intros H. cbn [populate_hierarchy]. unfold bind, get_list. now rewrite H.
Qed.


Lemma get_part_repopulated (n : nat) (f : string) (op : pyval)
    (w w1 : world) (oid : pyval) :
  hierarchy w !! StrKey f = None ->
  find_file n f w = (Return oid, w1) -> truthy oid = true ->
  get_part n f op w =
  (Return (next_part (http_list (store w1) oid)),
   mkWorld (hierarchy w1) (store w1) (calls w1 ++ [CList oid])).
Proof.
  intros Hh Hf Ht. unfold get_part, bind, lookup_h, get_list, ret.
  rewrite Hh, Hf, Ht. reflexivity.
Qed.

(** C2 (the code against the claim): when the target path resolves,
    whatever record [create_meta] returns has ["action"] set to ["C"], the
    Create action, and so never ["U"]. *)
Theorem update_branch_action_is_create (n : nat) (f : string) (op : pyval)
    (kw : kwargs) (w w1 w' : world) (oid : pyval) (meta : dict) :
  find_file n f w = (Return oid, w1) -> truthy oid = true ->
  create_meta n f op kw w = (Return meta, w') ->
  dict_get "action" meta = Some (PStr "C").
Proof.
  intros Hf Ht H. unfold create_meta, bind in H. rewrite Hf, Ht in H.
  unfold get_props, loads, ret, raise in H.
  run H; inversion H; subst; rewrite ?dict_get_set; simpl; try reflexivity.
Qed.

(** C9 (amended): a record returned by the Create branch names its
    parent, the oid [find_file] returned for the parent path or else the
    one [make_directory_tree] returned for it; its ["objectpolicy"] is
    the supplied policy text parsed, or, when no policy is supplied, the
    policy read from the properties of that parent, whatever it is; its
    ["mimetype"] is element [0] of the mimetype given, or of the type
    guessed from the local file name or else from the path, [None] when
    nothing is guessed.  A record returned by the Update branch is the
    fetched properties under the overlays: its ["mimetype"] is the one of
    the fetched properties, absent when they have none, and its
    ["objectpolicy"] is the supplied policy (parsed when it is a text),
    and else the one of the fetched properties. *)
Theorem record_keys (n : nat) (f : string) (op : pyval) (kw : kwargs)
    (w w1 w' : world) (oid : pyval) (meta : dict) :
  find_file n f w = (Return oid, w1) ->
  create_meta n f op kw w = (Return meta, w') ->
  if truthy oid
  then dict_get "mimetype" meta
       = dict_get "mimetype" (http_props (store w1) oid) /\
       dict_get "objectpolicy" meta
       = (if truthy op
          then match op with PStr s => json_loads s | _ => Some op end
          else dict_get "objectpolicy" (http_props (store w1) oid))
  else exists poid pol m0 : pyval,
       dict_get "parentoid" meta = Some poid /\
       dict_get "objectpolicy" meta = Some pol /\
       (if truthy op
        then exists s, op = PStr s /\ json_loads s = Some pol
        else dict_get "objectpolicy" (http_props (store w') poid) = Some pol) /\
       dict_get "mimetype" meta = Some m0 /\
       index0 (match kw_mimetype kw with
               | Some m => m
               | None => guess (default f (kw_local_filename kw))
               end) w' = (Return m0, w') /\
       (kw_mimetype kw = None ->
        m0 = opt_str (fst (guess_type (default f (kw_local_filename kw))))) /\
       exists (found : pyval) (w2 : world),
         find_file n (path_str (path_parent (Path f))) w1
         = (Return found, w2) /\
         if truthy found then poid = found
         else exists w3,
             make_directory_tree n (path_str (path_parent (Path f))) op None
               w2 = (Return poid, w3).
Proof.
  intros Hf H. unfold create_meta, bind in H. rewrite Hf in H.
  destruct (truthy oid) eqn:Ht.
  - unfold get_props, loads, ret, raise in H.
    destruct (truthy op) eqn:Hop;
    run H; inversion H; subst; rewrite ?dict_get_set; simpl;
      split; try reflexivity; try discriminate; eauto.
  - unfold get_props, getitem, loads, index0, ret, raise in H.
    destruct (truthy op) eqn:Hop; cbn [negb] in H;
    destruct (kw_mimetype kw) as [m|] eqn:Hm;
    try destruct (kw_local_filename kw) as [lf|] eqn:Hlf;
    unfold guess in *; cbn [default] in *;
    run H; inversion H; subst; rewrite ?dict_get_set; simpl;
    unfold guess;
    try match goal with E : guess_type _ = (_, _) |- _ => rewrite E end;
    do 3 eexists;
    (split; [reflexivity|]); (split; [reflexivity|]);
    (split; [solve [eauto]|]); (split; [reflexivity|]);
    (split; [reflexivity|]);
    (split; [first [discriminate | intros _; reflexivity]|]);
    do 2 eexists; (split; [first [eassumption | reflexivity]|]);
    match goal with
    | E : negb (truthy ?a) = _ |- _ =>
        destruct (truthy a); simpl in E; try discriminate E
    end; first [reflexivity | eexists; first [eassumption | reflexivity]].
Qed.


End Facts.

(** ** PartSequencer *)

(** C5: for every string [s] of three lowercase letters other than
    ["zzz"], [_increment_str s] differs from [s] and is greater than [s]
    in the order of strings; and [_increment_str] maps ["aaa"] to ["aab"],
    ["aaz"] to ["aba"] and ["azz"] to ["baa"]. *)
Theorem increment_greater :
  (forall s : string,
      lowercase3 s = true -> s <> "zzz" ->
      _increment_str s <> s /\ String.ltb s (_increment_str s) = true) /\
  _increment_str "aaa" = "aab" /\
  _increment_str "aaz" = "aba" /\
  _increment_str "azz" = "baa".
Proof.
  split; [|repeat split; reflexivity].
  intros s Hl Hz.
  destruct s as [|c1 [|c2 [|c3 [|]]]]; try discriminate Hl.
  simpl in Hl. apply andb_prop in Hl as [Hl H3].
  apply andb_prop in Hl as [H1 H2].
  assert (Hlt : String.ltb (String c1 (String c2 (String c3 "")))
                  (_increment_str (String c1 (String c2 (String c3 ""))))
                = true).
  { unfold _increment_str, String.ltb.
    destruct (Ascii.eqb_spec c3 "z") as [->|N3].
    - destruct (Ascii.eqb_spec c2 "z") as [->|N2].
      + destruct (Ascii.eqb_spec c1 "z") as [->|N1]; [congruence|].
        destruct (lowercase_step c1 H1 N1) as (E & L & _).
        simpl. rewrite E. simpl. now rewrite L.
      + destruct (lowercase_step c2 H2 N2) as (E & L & _).
        simpl. rewrite E. simpl. now rewrite ascii_compare_refl, L.
    - destruct (lowercase_step c3 H3 N3) as (E & L & _).
      simpl. rewrite E. simpl. now rewrite !ascii_compare_refl, L. }
  split; [now apply ltb_neq | exact Hlt].
Qed.

Lemma increment_greater_witness :
  lowercase3 "abz" = true /\ "abz" <> "zzz" /\
  _increment_str "abz" <> "abz" /\
  String.ltb "abz" (_increment_str "abz") = true.
Proof.
  split; [reflexivity|]. split; [discriminate|].
  apply (proj1 increment_greater "abz"); [reflexivity|discriminate].
Defined.

(** C3 (the claim fails): [_increment_str "zzz"] returns the string
    ["aaaa"]; nothing is raised. *)
Lemma increment_zzz_returns_aaaa : _increment_str "zzz" = "aaaa".
Proof. reflexivity. Qed.

(** C3 (amended): on a string made of [z] only, of any width [n],
    [_increment_str] returns [n + 1] letters [a]: ["zzz"] has the
    successor ["aaaa"], and no part name exhausts the sequence. *)
Theorem increment_all_z_grows (n : nat) :
  _increment_str (times "z" n) = times "a" (S n).
Proof.
  unfold _increment_str. rewrite rstrip_all, length_times. simpl.
  now rewrite Nat.sub_0_r.
Qed.

(** ** HierarchyCache and MetadataBuilder on the scenarios *)

Lemma update_branch_action_witness :
  exists meta,
    result (create_meta 10 "/log" PNone no_kwargs) (connected tree_file)
    = Return meta /\
    dict_get "action" meta = Some (PStr "C").
Proof.
  eexists. split; [vm_compute; reflexivity|].
  apply (update_branch_action_is_create (SV := scenario) 10 "/log" PNone
           no_kwargs (connected tree_file)
           (after (find_file 10 "/log") (connected tree_file))
           (after (create_meta 10 "/log" PNone no_kwargs)
              (connected tree_file))
           (PInt 2));
    vm_compute; reflexivity.
Defined.

(** C9 (the claim fails): ["/a"] resolves to a directory, whose properties
    have no mimetype; the record [create_meta] returns for it has no
    ["mimetype"] key. *)
Lemma update_record_without_mimetype :
  exists meta,
    result (create_meta 10 "/a" PNone no_kwargs) (connected tree_a)
    = Return meta /\
    dict_get "mimetype" meta = None.
Proof. eexists. split; vm_compute; reflexivity. Qed.

Lemma record_keys_witness :
  exists meta,
    result (create_meta 10 "/a/x.txt" PNone no_kwargs) (connected tree_a)
    = Return meta /\
    exists poid pol m0 : pyval,
      dict_get "parentoid" meta = Some poid /\
      dict_get "objectpolicy" meta = Some pol /\
      dict_get "objectpolicy"
        (http_props
           (store (after (create_meta 10 "/a/x.txt" PNone no_kwargs)
                     (connected tree_a))) poid) = Some pol /\
      dict_get "mimetype" meta = Some m0 /\
      index0 (@guess scenario "/a/x.txt")
        (after (create_meta 10 "/a/x.txt" PNone no_kwargs) (connected tree_a))
      = (Return m0,
         after (create_meta 10 "/a/x.txt" PNone no_kwargs)
           (connected tree_a)) /\
      (kw_mimetype no_kwargs = None ->
       m0 = opt_str (fst (@guess_type scenario "/a/x.txt"))) /\
      exists (found : pyval) (w2 : world),
        find_file 10 (path_str (path_parent (Path "/a/x.txt")))
          (after (find_file 10 "/a/x.txt") (connected tree_a))
        = (Return found, w2) /\
        if truthy found then poid = found
        else exists w3,
            make_directory_tree 10 (path_str (path_parent (Path "/a/x.txt")))
              PNone None w2 = (Return poid, w3).
Proof.
  eexists. split; [vm_compute; reflexivity|].
  apply (record_keys (SV := scenario) 10 "/a/x.txt" PNone no_kwargs
           (connected tree_a)
           (after (find_file 10 "/a/x.txt") (connected tree_a))
           (after (create_meta 10 "/a/x.txt" PNone no_kwargs)
              (connected tree_a))
           PNone);
    vm_compute; reflexivity.
Defined.

(** ** DirectoryTreeBuilder on the scenarios *)

(** X24: when the parent of [path] is in the cache, its properties hold
    a policy whose text parses back and a security tag, and neither a
    policy nor a security tag is given, [make_directory_tree] returns after
    reading the parent's properties twice and sending exactly one write,
    the record of [path] under the parent's oid with the parent's policy
    and security tag, whether [path] exists already or not.  On a remote
    tree that holds ["/a"], the call for ["/a/b/c"] returns after writing
    exactly two directories, ["b"] under ["/a"] and then ["c"] under
    ["/a/b"], in that order; a second call returns the same oid after
    exactly one further write, of ["c"] again. *)
Theorem ensure_below_resolved_parent :
  (forall (SV : Services) (n : nat) (path : string) (w : world)
      (oid p0 p s0 : pyval),
      hierarchy w !! StrKey (path_str (path_parent (Path path))) = Some oid ->
      truthy oid = true ->
      dict_get "objectpolicy" (http_props (store w) oid) = Some p0 ->
      json_dumps p0 <> "" ->
      json_loads (json_dumps p0) = Some p ->
      dict_get "security" (http_props (store w) oid) = Some s0 ->
      exists new w',
        make_directory_tree (S n) path PNone None w = (Return new, w') /\
        calls w' =
        (calls w ++
         [CProps oid; CProps oid;
          CWrite [("action", PStr "U"); ("name", PStr (path_name (Path path)));
                  ("parentoid", oid); ("isFile", PBool false);
                  ("objectpolicy", p); ("security", s0)]])%list) /\
  let first := make_directory_tree 10 "/a/b/c" PNone None in
  let w1 := after first (connected tree_a) in
  result first (connected tree_a) = Return (PInt 4) /\
  written (calls w1)
  = [(Some (PStr "b"), Some (PInt 2)); (Some (PStr "c"), Some (PInt 3))] /\
  result first w1 = Return (PInt 4) /\
  written (calls (after first w1))
  = (written (calls w1) ++ [(Some (PStr "c"), Some (PInt 3))])%list.
Proof.
  split.
  - intros SV n path w oid p0 p s0 Hh Ht Hp Hd Hl Hs.
    rewrite (ensure_one_step n path w oid p0 p s0 Hh Ht Hp Hd Hl Hs).
    eexists. eexists. split; reflexivity.
  - vm_compute. repeat split; reflexivity.
Qed.

Lemma ensure_below_resolved_parent_witness :
  exists new w',
    make_directory_tree 1 "/a/b" PNone None (connected tree_a)
    = (Return new, w') /\
    calls w' =
    (calls (connected tree_a) ++
     [CProps (PInt 2); CProps (PInt 2);
      CWrite [("action", PStr "U"); ("name", PStr "b");
              ("parentoid", PInt 2); ("isFile", PBool false);
              ("objectpolicy", policy "P0"); ("security", PStr "S0")]])%list.
Proof.
  apply (proj1 ensure_below_resolved_parent scenario 0 "/a/b"
           (connected tree_a) (PInt 2) (policy "P0") (policy "P0")
           (PStr "S0")); try (vm_compute; reflexivity).
  vm_compute. discriminate.
Defined.



(** ** PartResolver on the scenarios *)




(** C8 (the code against the claim): a path that is no key of the cache
    and resolves by repopulation is listed under its own oid, without a
    look at its properties, file or not.  ["/log"] is a file under the
    root: a client whose cache holds it asks for its properties and lists
    its parent, oid 1, so the next part is the successor of ["log"]; a
    client that resolves it only by repopulation lists the file itself,
    oid 2, finds nothing and returns ["aaa"]. *)
Theorem repopulated_file_is_listed_itself :
  (forall (SV : Services) (n : nat) (f : string) (op : pyval) (w w1 : world)
      (oid : pyval),
      hierarchy w !! StrKey f = None ->
      find_file n f w = (Return oid, w1) -> truthy oid = true ->
      calls (after (get_part n f op) w) = (calls w1 ++ [CList oid])%list) /\
  result (get_part 10 "/log" PNone) (fresh tree_file) = Return "aaa" /\
  calls (after (get_part 10 "/log" PNone) (fresh tree_file))
  = [CList (PInt 1); CList (PInt 2)] /\
  result (get_part 10 "/log" PNone) (connected tree_file) = Return "loh" /\
  calls (after (get_part 10 "/log" PNone) (connected tree_file))
  = [CList (PInt 1); CProps (PInt 2); CList (PInt 1)].
Proof.
  split.
  - intros SV n f op w w1 oid Hh Hf Ht. unfold after.
    now rewrite (get_part_repopulated n f op w w1 oid Hh Hf Ht).
  - vm_compute. repeat split; reflexivity.
Qed.

Lemma repopulated_file_witness :
  calls (after (get_part 10 "/log" PNone) (fresh tree_file))
  = (calls (after (find_file 10 "/log") (fresh tree_file))
     ++ [CList (PInt 2)])%list.
Proof.
  apply (proj1 repopulated_file_is_listed_itself scenario 10 "/log" PNone
           (fresh tree_file) (after (find_file 10 "/log") (fresh tree_file))
           (PInt 2)); vm_compute; reflexivity.
Defined.

(** C10 (the code against the claim): [make_directory_tree] records the
    new oid under the [PosixPath] object, not under the string, and
    leaves every string key of the cache as it was.  After
    [make_directory_tree "/a/b"] the string ["/a/b"] is still no key, and
    after the next [find_file "/a/b"], which has to repopulate, the cache
    holds two keys for the one path. *)
Theorem directory_recorded_under_path_key :
  (forall (SV : Services) (n : nat) (path : string) (w : world)
      (oid p0 p s0 : pyval),
      hierarchy w !! StrKey (path_str (path_parent (Path path))) = Some oid ->
      truthy oid = true ->
      dict_get "objectpolicy" (http_props (store w) oid) = Some p0 ->
      json_dumps p0 <> "" ->
      json_loads (json_dumps p0) = Some p ->
      dict_get "security" (http_props (store w) oid) = Some s0 ->
      forall s : string,
        hierarchy (after (make_directory_tree (S n) path PNone None) w)
          !! StrKey s
        = hierarchy w !! StrKey s) /\
  let w1 := after (make_directory_tree 10 "/a/b" PNone None)
              (connected tree_a) in
  let w2 := after (find_file 10 "/a/b") w1 in
  hierarchy w1 !! PathKey (Path "/a/b") = Some (PInt 3) /\
  hierarchy w1 !! StrKey "/a/b" = None /\
  calls w2
  = (calls w1 ++ [CList (PInt 1); CList (PInt 2); CList (PInt 3)])%list /\
  hierarchy w2 !! PathKey (Path "/a/b") = Some (PInt 3) /\
  hierarchy w2 !! StrKey "/a/b" = Some (PInt 3) /\
  key_path (PathKey (Path "/a/b")) = key_path (StrKey "/a/b") /\
  PathKey (Path "/a/b") <> StrKey "/a/b".
Proof.
  split.
  - intros SV n path w oid p0 p s0 Hh Ht Hp Hd Hl Hs s. unfold after.
    rewrite (ensure_one_step n path w oid p0 p s0 Hh Ht Hp Hd Hl Hs).
    cbn [snd hierarchy].
    destruct (fst (snd (http_write _ _))); [|reflexivity].
    now apply lookup_insert_ne.
  - vm_compute. repeat split; try reflexivity. discriminate.
Qed.

Lemma directory_recorded_witness :
  hierarchy (after (make_directory_tree 1 "/a/b" PNone None)
               (connected tree_a)) !! StrKey "/a/b"
  = hierarchy (connected tree_a) !! StrKey "/a/b".
Proof.
  apply (proj1 directory_recorded_under_path_key scenario 0 "/a/b"
           (connected tree_a) (PInt 2) (policy "P0") (policy "P0")
           (PStr "S0")); try (vm_compute; reflexivity).
  vm_compute. discriminate.
Defined.

(** * Further properties *)

(** ** PartSequencer at any width *)

#[local] Arguments String.append : simpl nomatch.

Lemma append_snoc (p t : string) (x : ascii) :
  (p +:+ String x "") +:+ t = p +:+ String x t.
Proof. induction p as [|a p IH]; simpl; [reflexivity|]. now rewrite IH. Qed.

Lemma length_app (p q : string) :
  String.length (p +:+ q) = (String.length p + String.length q)%nat.
Proof. induction p as [|a p IH]; simpl; [reflexivity|]. now rewrite IH. Qed.

Lemma rstrip_snoc (c x : ascii) (p : string) (k : nat) :
  x <> c -> rstrip c (p +:+ String x (times c k)) = p +:+ String x "".
Proof.
  intros Hx. induction p as [|a p IH]; simpl.
  - rewrite rstrip_all. now destruct (Ascii.eqb_spec x c).
  - rewrite IH. now destruct p.
Qed.

Lemma but_last_snoc (p : string) (x : ascii) : but_last (p +:+ String x "") = p.
Proof.
  induction p as [|a p IH]; simpl; [reflexivity|].
  rewrite IH. now destruct p.
Qed.

Lemma last_char_snoc (p : string) (x : ascii) :
  last_char (p +:+ String x "") = x.
Proof.
  induction p as [|a p IH]; simpl; [reflexivity|].
  rewrite IH. now destruct p.
Qed.

(** Every string is made of [z] only, or splits into a prefix, a
    character other than [z] and a run of [z]. *)
Lemma trailing_z (s : string) :
  s = times "z" (String.length s) \/
  exists p c k, c <> "z"%char /\ s = p +:+ String c (times "z" k).
Proof.
  induction s as [|a s IH]; [now left|].
  destruct IH as [Hz|(p & c & k & Hc & Hs)].
  - destruct (Ascii.eqb_spec a "z") as [->|Ha].
    + left. simpl. now rewrite <- Hz.
    + right. exists "", a, (String.length s). split; [exact Ha|].
      simpl. now rewrite <- Hz.
  - right. exists (String a p), c, k. split; [exact Hc|]. simpl. now rewrite Hs.
Qed.

Lemma times_not_snoc (p : string) (c : ascii) (k n : nat) :
  c <> "z"%char -> p +:+ String c (times "z" k) <> times "z" n.
Proof.
  intros Hc. revert n. induction p as [|a p IH]; intros [|n]; simpl; try easy.
  - intros H. inversion H. congruence.
  - intros H. inversion H. eapply IH; eassumption.
Qed.

Lemma increment_snoc (p : string) (c : ascii) (k : nat) :
  c <> "z"%char ->
  _increment_str (p +:+ String c (times "z" k))
  = p +:+ String (_increment_char c) (times "a" k).
Proof.
  intros Hc. unfold _increment_str.
  rewrite (rstrip_snoc "z" c p k Hc), but_last_snoc, last_char_snoc.
  replace (p +:+ String c "" =? "") with false by now destruct p.
  cbn [negb]. rewrite !length_app, append_snoc. simpl.
  rewrite length_times.
  replace (String.length p + S k - (String.length p + 1))%nat with k by lia.
  reflexivity.
Qed.

Lemma all_lowercase_app (p q : string) :
  all_lowercase (p +:+ q) = all_lowercase p && all_lowercase q.
Proof.
  induction p as [|a p IH]; simpl; [reflexivity|].
  now rewrite IH, andb_assoc.
Qed.

Lemma all_lowercase_times_a (k : nat) : all_lowercase (times "a" k) = true.
Proof. induction k as [|k IH]; simpl; [reflexivity|exact IH]. Qed.

Lemma compare_app (p x y : string) :
  (p +:+ x ?= p +:+ y)%string = (x ?= y)%string.
Proof.
  induction p as [|a p IH]; simpl; [reflexivity|].
  now rewrite ascii_compare_refl.
Qed.

(** A string of lowercase letters that is not made of [z] only is below
    its successor, which is again made of lowercase letters. *)
Lemma increment_lowercase (s : string) :
  all_lowercase s = true -> s <> times "z" (String.length s) ->
  all_lowercase (_increment_str s) = true /\
  String.ltb s (_increment_str s) = true.
Proof.
  intros Hl Hz. destruct (trailing_z s) as [H|(p & c & k & Hc & ->)];
    [contradiction|].
  rewrite (increment_snoc p c k Hc).
  rewrite all_lowercase_app in Hl. apply andb_prop in Hl as [Hp Hl].
  simpl in Hl. apply andb_prop in Hl as [Hlc _].
  destruct (lowercase_step c Hlc Hc) as (_ & Hlt & Hli).
  split.
  - rewrite all_lowercase_app, Hp. simpl.
    now rewrite Hli, all_lowercase_times_a.
  - unfold String.ltb. rewrite compare_app. simpl. now rewrite Hlt.
Qed.

Lemma value26_from_app (p q : string) :
  forall acc, value26_from acc (p +:+ q) = value26_from (value26_from acc p) q.
Proof. induction p as [|a p IH]; intros acc; simpl; [reflexivity|apply IH]. Qed.

Lemma value26_from_z (k : nat) :
  forall acc, (value26_from acc (times "z" k) + 1
               = (acc + 1) * 26 ^ N.of_nat k)%N.
Proof.
  induction k as [|k IH]; intros acc.
  - simpl. lia.
  - cbn [times value26_from]. rewrite IH.
    rewrite Nat2N.inj_succ, N.pow_succ_r'.
    change (digit "z") with 25%N. lia.
Qed.

Lemma value26_from_a (k : nat) :
  forall acc, (value26_from acc (times "a" k) = acc * 26 ^ N.of_nat k)%N.
Proof.
  induction k as [|k IH]; intros acc.
  - simpl. lia.
  - cbn [times value26_from]. rewrite IH.
    rewrite Nat2N.inj_succ, N.pow_succ_r'.
    change (digit "a") with 0%N. lia.
Qed.

Lemma digit_step (c : ascii) :
  lowercase c = true -> c <> "z"%char ->
  digit (_increment_char c) = (digit c + 1)%N.
Proof.
  intros Hl Hz.
  destruct c as [[] [] [] [] [] [] [] []]; try discriminate Hl;
    try (exfalso; apply Hz; reflexivity); reflexivity.
Qed.

Lemma split_without (sep : ascii) (s : string) :
  (forall p q, s <> p +:+ String sep q) -> split sep s = [s].
Proof.
  induction s as [|a s IH]; intros H; simpl; [reflexivity|].
  destruct (Ascii.eqb_spec a sep) as [->|Ha].
  - exfalso. apply (H "" s). reflexivity.
  - rewrite IH; [reflexivity|].
    intros p q E. apply (H (String a p) q). simpl. now rewrite E.
Qed.

Lemma lowercase_no_dot (s : string) :
  all_lowercase s = true -> forall p q, s <> p +:+ String "." q.
Proof.
  induction s as [|a s IH]; intros Hl p q E.
  - destruct p; discriminate.
  - simpl in Hl. apply andb_prop in Hl as [Ha Hs].
    destruct p as [|b p]; simpl in E; inversion E; subst.
    + discriminate Ha.
    + eapply IH; [exact Hs|reflexivity].
Qed.

Lemma times_z_lowercase (n : nat) : all_lowercase (times "z" n) = true.
Proof. induction n as [|n IH]; simpl; [reflexivity|exact IH]. Qed.

Lemma le_str_antisym (s t : string) : le_str s t -> le_str t s -> s = t.
Proof. apply String.leb_antisym. Qed.

Lemma le_lt_trans (x m y : string) :
  le_str x m -> String.ltb m y = true -> String.ltb x y = true.
Proof.
  intros Hxm Hmy. unfold String.ltb in *.
  destruct (x ?= y)%string eqn:E; [| reflexivity |].
  - apply String.compare_eq_iff in E. subst y.
    assert (H : le_str m x).
    { unfold le_str, String.leb. now destruct (m ?= x)%string. }
    rewrite (le_str_antisym _ _ Hxm H), string_compare_refl in Hmy.
    discriminate.
  - assert (Hyx : le_str y x).
    { unfold le_str, String.leb. rewrite String.compare_antisym, E.
      reflexivity. }
    pose proof (le_str_trans _ _ _ Hyx Hxm) as Hym.
    unfold le_str, String.leb in Hym.
    rewrite String.compare_antisym in Hym.
    destruct (m ?= y)%string; simpl in Hym; discriminate.
Qed.

(** X1: the carry rule, on any string: a character other than [z]
    followed by [k] letters [z] becomes its successor followed by [k]
    letters [a]; the prefix before it is left as it is. *)
Theorem increment_carry (p : string) (c : ascii) (k : nat) :
  c <> "z"%char ->
  _increment_str (p +:+ String c (times "z" k))
  = p +:+ String (_increment_char c) (times "a" k).
Proof. exact (increment_snoc p c k). Qed.

Lemma increment_carry_witness :
  _increment_str ("x9" +:+ String "Q" (times "z" 2)) = "x9Raa".
Proof. apply (increment_carry "x9" "Q" 2). discriminate. Defined.

(** X2: [_increment_str] keeps the length of every string that is not
    made of [z] only. *)
Theorem increment_keeps_length (s : string) :
  s <> times "z" (String.length s) ->
  String.length (_increment_str s) = String.length s.
Proof.
  intros Hz. destruct (trailing_z s) as [H|(p & c & k & Hc & ->)];
    [contradiction|].
  rewrite (increment_snoc p c k Hc), !length_app. simpl.
  now rewrite !length_times.
Qed.

Lemma increment_keeps_length_witness :
  String.length (_increment_str "part-zz") = String.length "part-zz".
Proof. apply increment_keeps_length. discriminate. Defined.

(** X3: at any width, a string of lowercase letters that is not made of
    [z] only has a successor of lowercase letters that is greater in the
    order of strings. *)
Theorem increment_greater_any_width (s : string) :
  all_lowercase s = true -> s <> times "z" (String.length s) ->
  all_lowercase (_increment_str s) = true /\
  String.ltb s (_increment_str s) = true.
Proof. exact (increment_lowercase s). Qed.

Lemma increment_greater_any_width_witness :
  all_lowercase (_increment_str "abzzz") = true /\
  String.ltb "abzzz" (_increment_str "abzzz") = true.
Proof. apply increment_greater_any_width; [reflexivity|discriminate]. Defined.

(** X4: read in base 26, the successor of a string of lowercase letters
    that is not made of [z] only is the number of the string plus one. *)
Theorem increment_is_successor (s : string) :
  all_lowercase s = true -> s <> times "z" (String.length s) ->
  value26 (_increment_str s) = (value26 s + 1)%N.
Proof.
  intros Hl Hz. destruct (trailing_z s) as [H|(p & c & k & Hc & ->)];
    [contradiction|].
  rewrite (increment_snoc p c k Hc).
  rewrite all_lowercase_app in Hl. apply andb_prop in Hl as [_ Hl].
  simpl in Hl. apply andb_prop in Hl as [Hlc _].
  unfold value26. rewrite !value26_from_app. cbn [value26_from].
  rewrite value26_from_a, value26_from_z, (digit_step c Hlc Hc). lia.
Qed.

Lemma increment_is_successor_witness :
  value26 (_increment_str "azz") = (value26 "azz" + 1)%N.
Proof. apply increment_is_successor; [reflexivity|discriminate]. Defined.

(** ** The next part name *)

Lemma next_part_top (listing : list entry) (m : string) :
  In m (file_names listing) ->
  (forall x, In x (file_names listing) -> le_str x m) ->
  next_part listing = _increment_str (List.hd "" (split "." m)).
Proof.
  intros Hin Hmax. pose proof (next_part_max listing) as H.
  destruct (file_names listing) as [|y l] eqn:E; [destruct Hin|].
  destruct H as (m' & Hin' & Hmax' & ->).
  now rewrite (le_str_antisym m' m (Hmax _ Hin') (Hmax' _ Hin)).
Qed.

Lemma increment_times_z (n : nat) :
  _increment_str (times "z" n) = times "a" (S n).
Proof.
  unfold _increment_str. rewrite rstrip_all, length_times. simpl.
  now rewrite Nat.sub_0_r.
Qed.

Lemma a_below_z (n : nat) :
  (0 < n)%nat -> String.ltb (times "a" (S n)) (times "z" n) = true.
Proof. destruct n as [|n]; [lia|reflexivity]. Qed.

Lemma ltb_le (s t : string) : String.ltb s t = true -> le_str s t.
Proof.
  unfold String.ltb, le_str, String.leb.
  now destruct (s ?= t)%string.
Qed.

(** X5: the sequence does not end at the last name of a width, it folds
    back: when the greatest file name is made of [n] letters [z], the next
    part is [n + 1] letters [a], a name below the greatest one; once a
    part of that name exists, the next part is that same name again. *)
Theorem next_part_wraps (listing : list entry) (n : nat) :
  (0 < n)%nat ->
  In (times "z" n) (file_names listing) ->
  (forall x, In x (file_names listing) -> le_str x (times "z" n)) ->
  next_part listing = times "a" (S n) /\
  String.ltb (times "a" (S n)) (times "z" n) = true /\
  forall e, e_name e = times "a" (S n) -> is_Some (e_isfile e) ->
            next_part (e :: listing) = times "a" (S n).
Proof.
  intros Hn Hin Hmax.
  assert (Hsplit : split "." (times "z" n) = [times "z" n]).
  { apply split_without, lowercase_no_dot, times_z_lowercase. }
  assert (Hgen : forall l, In (times "z" n) (file_names l) ->
                   (forall x, In x (file_names l) -> le_str x (times "z" n)) ->
                   next_part l = times "a" (S n)).
  { intros l Hi Hm. rewrite (next_part_top l _ Hi Hm), Hsplit.
    apply increment_times_z. }
  split; [now apply Hgen|]. split; [now apply a_below_z|].
  intros e He [b Hb]. apply Hgen.
  - unfold file_names. simpl. rewrite Hb. right. exact Hin.
  - unfold file_names. simpl. rewrite Hb. intros x [<-|Hx].
    + rewrite He. now apply ltb_le, a_below_z.
    + now apply Hmax.
Qed.

Lemma next_part_wraps_witness :
  next_part [{| e_name := "aaa"; e_oid := PInt 3;
                e_isfile := Some (PBool true) |};
             {| e_name := "zzz"; e_oid := PInt 4;
                e_isfile := Some (PBool true) |}] = "aaaa".
Proof.
  refine (proj1 (next_part_wraps _ 3 _ _ _));
    [lia | vm_compute; right; left; reflexivity |].
  intros x Hx. vm_compute in Hx. destruct Hx as [<-|[<-|[]]]; reflexivity.
Defined.

(** X6: when every file name is made of lowercase letters and none is
    made of [z] only, the next part is above every file name, and so is
    the name of no existing part. *)
Theorem next_part_is_fresh (listing : list entry) :
  (forall x, In x (file_names listing) ->
             all_lowercase x = true /\ x <> times "z" (String.length x)) ->
  forall x, In x (file_names listing) ->
            String.ltb x (next_part listing) = true.
Proof.
  intros Hall x Hx. pose proof (next_part_max listing) as H.
  destruct (file_names listing) as [|y l] eqn:E; [destruct Hx|].
  destruct H as (m & Hin & Hmax & ->).
  destruct (Hall m Hin) as [Hl Hz].
  rewrite (split_without "." m (lowercase_no_dot m Hl)). simpl.
  apply (le_lt_trans x m); [now apply Hmax|].
  now apply increment_lowercase.
Qed.

Lemma next_part_is_fresh_witness :
  String.ltb "aab" (next_part (store_list tree_parts (PInt 2))) = true.
Proof.
  apply next_part_is_fresh; [|vm_compute; right; left; reflexivity].
  intros x Hx. vm_compute in Hx.
  destruct Hx as [<-|[<-|[]]]; split; try reflexivity; discriminate.
Defined.

(** ** The cache methods refresh, and only refresh *)

Section Refresh.
Context {SV : Services}.

Lemma refreshed_refl (w : world) : refreshed w w.
Proof.
  repeat split; auto. exists []. now rewrite app_nil_r.
Qed.

Lemma refreshed_trans (w1 w2 w3 : world) :
  refreshed w1 w2 -> refreshed w2 w3 -> refreshed w1 w3.
Proof.
  intros (S1 & K1 & P1 & cs1 & C1) (S2 & K2 & P2 & cs2 & C2).
  repeat split.
  - congruence.
  - auto.
  - intros p. now rewrite P2.
  - exists (cs1 ++ cs2)%list. now rewrite C2, C1, app_assoc.
Qed.

Lemma refreshed_bind {A B} (m : M A) (k : A -> M B) :
  (forall w, refreshed w (after m w)) ->
  (forall a w, refreshed w (after (k a) w)) ->
  forall w, refreshed w (after (bind m k) w).
Proof.
  intros Hm Hk w. specialize (Hm w). unfold after, bind in *.
  destruct (m w) as [[a|e] w1]; simpl in *; [|exact Hm].
  eapply refreshed_trans; [exact Hm|apply Hk].
Qed.

Lemma refreshed_record (s : string) (v : pyval) (w : world) :
  refreshed w (after (record (StrKey s) v) w).
Proof.
  unfold after, record. simpl. repeat split; simpl.
  - intros k Hk. destruct (decide (StrKey s = k)) as [<-|Hne].
    + rewrite lookup_insert_eq. eauto.
    + now rewrite lookup_insert_ne.
  - intros p. now rewrite lookup_insert_ne.
  - exists []. now rewrite app_nil_r.
Qed.

Lemma refreshed_get_list (oid : pyval) (w : world) :
  refreshed w (after (get_list oid) w).
Proof.
  unfold after, get_list. simpl. repeat split; auto. now exists [CList oid].
Qed.

Lemma refreshed_for_each {A} (body : A -> M unit) (l : list A) :
  (forall j w, refreshed w (after (body j) w)) ->
  forall w, refreshed w (after (for_each l body) w).
Proof.
  intros H. induction l as [|j l IH]; intros w; simpl.
  - apply refreshed_refl.
  - apply refreshed_bind; auto.
Qed.

Lemma refreshed_populate (n : nat) :
  forall path oid w, refreshed w (after (populate_hierarchy n path oid) w).
Proof.
  induction n as [|n IH]; intros path oid w; [apply refreshed_refl|].
  cbn [populate_hierarchy].
  apply refreshed_bind; [apply refreshed_get_list|]. intros r w0.
  apply refreshed_for_each. intros j w1.
  apply refreshed_bind; [apply refreshed_record|]. intros _ w2.
  destruct (e_isfile j); [apply refreshed_refl|apply IH].
Qed.

Lemma refreshed_find_file (n : nat) (f : string) (w : world) :
  refreshed w (after (find_file n f) w).
Proof.
  unfold find_file. revert w.
  apply refreshed_bind; [intros w; apply refreshed_refl|]. intros [oid|] w.
  - apply refreshed_refl.
  - revert w. apply refreshed_bind; [apply refreshed_populate|]. intros _.
    apply refreshed_bind; [intros w; apply refreshed_refl|].
    intros [oid|] w; apply refreshed_refl.
Qed.

(** X7: [populate_hierarchy] and [find_file] only refresh the cache: the
    remote store is left as it is, no key of the cache is ever dropped (a
    path deleted remotely keeps resolving), the entries under [PosixPath]
    keys are never touched, and requests are only added. *)
Theorem cache_methods_only_refresh (n : nat) (path f : string) (oid : pyval)
    (w : world) :
  refreshed w (after (populate_hierarchy n path oid) w) /\
  refreshed w (after (find_file n f) w).
Proof. split; [apply refreshed_populate|apply refreshed_find_file]. Qed.

Lemma for_each_registers {A} (body : A -> M unit) (key : A -> hkey) :
  (forall j w w1, body j w = (Return tt, w1) ->
                  is_Some (hierarchy w1 !! key j)) ->
  (forall j w, refreshed w (after (body j) w)) ->
  forall l w w',
    for_each l body w = (Return tt, w') ->
    forall j, In j l -> is_Some (hierarchy w' !! key j).
Proof.
  intros Hkey Href. induction l as [|i l IH]; intros w w' H j Hj;
    [destruct Hj|].
  cbn [for_each] in H. unfold bind at 1 in H.
  destruct (body i w) as [[[]|e] w1] eqn:Hb; [|discriminate].
  destruct Hj as [<-|Hj]; [|now apply (IH w1 w' H)].
  destruct (refreshed_for_each body l Href w1) as (_ & K & _).
  unfold after in K. rewrite H in K. apply K. eapply Hkey. exact Hb.
Qed.

Lemma populate_body_refreshed (n : nat) (prefix : string) (j : entry)
    (w : world) :
  refreshed w
    (after (bind (record (StrKey (prefix +:+ "/" +:+ e_name j)) (e_oid j))
              (fun _ => match e_isfile j with
                        | Some _ => ret tt
                        | None => populate_hierarchy n
                                    (prefix +:+ "/" +:+ e_name j) (e_oid j)
                        end)) w).
Proof.
  revert w. apply refreshed_bind; [intros; apply refreshed_record|].
  intros _ w. destruct (e_isfile j);
    [apply refreshed_refl|apply refreshed_populate].
Qed.

(** X8: when [populate_hierarchy] returns, every entry the remote store
    listed for the oid is a key of the cache, under the path joined with
    its name (the path ["/"] counting as empty). *)
Theorem populate_registers_children (n : nat) (path : string) (oid : pyval)
    (w w' : world) :
  populate_hierarchy n path oid w = (Return tt, w') ->
  forall j, In j (http_list (store w) oid) ->
    is_Some (hierarchy w' !! StrKey ((if path =? "/" then "" else path)
                                      +:+ "/" +:+ e_name j)).
Proof.
  destruct n as [|n]; [discriminate|].
  cbn [populate_hierarchy]. unfold bind at 1, get_list at 1.
  intros H j Hj.
  eapply (for_each_registers _
            (fun j => StrKey ((if path =? "/" then "" else path)
                              +:+ "/" +:+ e_name j)));
    [| |exact H|exact Hj].
  - intros i w0 w1 Hb. unfold bind at 1, record at 1 in Hb.
    destruct (e_isfile i).
    + inversion Hb; subst. simpl. rewrite lookup_insert_eq. eauto.
    + match type of Hb with populate_hierarchy _ ?p ?o ?w2 = _ =>
        destruct (refreshed_populate n p o w2) as (_ & K & _) end.
      unfold after in K. rewrite Hb in K. apply K.
      simpl. rewrite lookup_insert_eq. eauto.
  - intros i w0. apply populate_body_refreshed.
Qed.

(** X9: a lookup that misses the cache always goes to the remote store,
    starting with a listing of the root, oid 1: paths that were not found
    before are not remembered as absent. *)
Theorem miss_lists_the_root (n : nat) (f : string) (w : world) :
  hierarchy w !! StrKey f = None ->
  exists cs,
    calls (after (find_file (S n) f) w)
    = (calls w ++ CList (PInt 1) :: cs)%list.
Proof.
  intros Hm. unfold after, find_file. unfold bind at 1, lookup_h at 1.
  rewrite Hm. cbn [populate_hierarchy].
  unfold bind at 1. unfold bind at 1, get_list at 1.
  match goal with |- context [for_each ?l ?body ?w0] =>
    destruct (refreshed_for_each body l
                (fun j w1 => populate_body_refreshed n "" j w1) w0)
      as (_ & _ & _ & cs & C); unfold after in C;
    destruct (for_each l body w0) as [[[]|e] w1] end; simpl in C.
  - unfold bind, lookup_h.
    exists cs. destruct (hierarchy w1 !! StrKey f); simpl;
      now rewrite C, <- app_assoc.
  - exists cs. simpl. now rewrite C, <- app_assoc.
Qed.

Lemma key_stays_answered (m : nat) (f : string) (w w'' : world) :
  is_Some (hierarchy w !! StrKey f) ->
  (forall k, is_Some (hierarchy w !! k) -> is_Some (hierarchy w'' !! k)) ->
  exists oid', hierarchy w'' !! StrKey f = Some oid' /\
               find_file m f w'' = (Return oid', w'').
Proof.
  intros Hs K. destruct (K _ Hs) as [oid' E]. exists oid'.
  split; [exact E|]. now apply find_file_hit.
Qed.

(** X10: once [find_file] has returned a truthy oid for a path, the
    path is a key of the cache: a [find_file] of it run next returns the
    same oid, with no request and whatever the fuel; and in any later
    state of the client that still has every key of that cache, whatever
    has become of the remote tree, [find_file] of the path is answered
    from the cache with no request, by the oid the cache holds then (a
    repopulation may have replaced it). *)
Theorem found_stays_cached (n : nat) (f : string) (w w' : world)
    (oid : pyval) :
  find_file n f w = (Return oid, w') -> truthy oid = true ->
  (forall m, find_file m f w' = (Return oid, w')) /\
  (forall m w'',
      (forall k, is_Some (hierarchy w' !! k) -> is_Some (hierarchy w'' !! k)) ->
      exists oid', hierarchy w'' !! StrKey f = Some oid' /\
                   find_file m f w'' = (Return oid', w'')).
Proof.
  intros H Ht.
  assert (E : hierarchy w' !! StrKey f = Some oid).
  { unfold find_file, bind, lookup_h, ret in H.
    destruct (hierarchy w !! StrKey f) as [o|] eqn:E.
    - inversion H; subst. exact E.
    - destruct (populate_hierarchy n "/" (PInt 1) w) as [[[]|e] w1];
        [|discriminate].
      destruct (hierarchy w1 !! StrKey f) as [o|] eqn:E1;
        inversion H; subst; [exact E1|discriminate]. }
  split.
  - intros m. now apply find_file_hit.
  - intros m w'' K. apply (key_stays_answered m f w' w''); [|exact K].
    rewrite E. eauto.
Qed.

End Refresh.

Lemma populate_registers_children_witness :
  is_Some (hierarchy (connected tree_parts) !! StrKey "/log").
Proof.
  apply (populate_registers_children (SV := scenario) 10 "/" (PInt 1)
           (fresh tree_parts) (connected tree_parts)
           (eq_refl : populate_hierarchy 10 "/" (PInt 1) (fresh tree_parts)
                      = (Return tt, connected tree_parts))
           {| e_name := "log"; e_oid := PInt 2; e_isfile := None |}).
  left. reflexivity.
Defined.

Lemma miss_lists_the_root_witness :
  exists cs,
    calls (after (find_file 3 "/nowhere") (connected tree_a))
    = (calls (connected tree_a) ++ CList (PInt 1) :: cs)%list.
Proof.
  apply (miss_lists_the_root (SV := scenario) 2 "/nowhere"
           (connected tree_a)).
  reflexivity.
Defined.

Lemma found_stays_cached_witness :
  find_file 0 "/a" (after (find_file 5 "/a") (fresh tree_a))
  = (Return (PInt 2), after (find_file 5 "/a") (fresh tree_a)).
Proof.
  apply (proj1 (found_stays_cached (SV := scenario) 5 "/a" (fresh tree_a)
                  (after (find_file 5 "/a") (fresh tree_a)) (PInt 2)
                  eq_refl eq_refl)).
Defined.

(** ** DirectoryTreeBuilder: policies and security tags at the edges *)

Section Edges.
Context {SV : Services}.

Lemma never_bind_l {A B} (m : M A) (k : A -> M B) :
  returns (fun _ => False) m -> returns (fun _ => False) (bind m k).
Proof.
  intros Hm w b w' H. unfold bind in H.
  destruct (m w) as [[a|e] w1] eqn:E; [|discriminate].
  exact (Hm _ _ _ E).
Qed.

Lemma never_bind_r {A B} (m : M A) (k : A -> M B) :
  (forall a, returns (fun _ => False) (k a)) ->
  returns (fun _ => False) (bind m k).
Proof.
  intros Hk w b w' H. unfold bind in H.
  destruct (m w) as [[a|e] w1] eqn:E; [|discriminate].
  exact (Hk a _ _ _ H).
Qed.

(** A truthy policy that is no text, or a text [json.loads] refuses. *)
Lemma loads_raises (op : pyval) :
  match op with PStr s => json_loads s = None | _ => True end ->
  exists e, loads op = raise e.
Proof.
  intros H. unfold loads. destruct op; eauto.
  rewrite H. eauto.
Qed.

Lemma no_write_list (oid : pyval) : no_write (CList oid).
Proof. exact I. Qed.

Lemma bad_policy_sends_no_write (n : nat) (op : pyval) (sec : option pyval) :
  truthy op = true ->
  match op with PStr s => json_loads s = None | _ => True end ->
  forall path, sends_only no_write (make_directory_tree n path op sec).
Proof.
  intros Ht Hbad. destruct (loads_raises op Hbad) as [e He].
  induction n as [|n IH]; intros path; [apply so_raise|].
  cbn [make_directory_tree].
  apply so_bind; [apply so_find_file, no_write_list|]. intros oid0.
  apply so_bind.
  { destruct (negb (truthy oid0)); [|apply so_ret].
    apply so_bind; [apply IH|]. intros _. apply so_ret. }
  intros _.
  apply so_bind; [apply so_find_file, no_write_list|]. intros oid.
  apply so_bind; [now apply so_get_props|]. intros r.
  rewrite Ht. cbn [negb]. apply so_bind_ret. rewrite He.
  apply so_bind_post with (Q := fun _ => False); [apply so_raise| |easy].
  intros w a w' H. discriminate.
Qed.

Lemma bad_policy_never_returns (n : nat) (op : pyval) (sec : option pyval)
    (path : string) :
  truthy op = true ->
  match op with PStr s => json_loads s = None | _ => True end ->
  returns (fun _ => False) (make_directory_tree n path op sec).
Proof.
  intros Ht Hbad. destruct (loads_raises op Hbad) as [e He].
  destruct n as [|n]; [intros w a w' H; discriminate|].
  cbn [make_directory_tree].
  apply never_bind_r. intros oid0. apply never_bind_r. intros _.
  apply never_bind_r. intros oid. apply never_bind_r. intros r.
  rewrite Ht. cbn [negb].
  intros w a w' H. unfold bind at 1, ret at 1 in H. revert w a w' H.
  rewrite He. apply never_bind_l. intros w a w' H. discriminate.
Qed.

(** X11: a policy that is falsy (the empty text, an empty dictionary,
    [None]) is no policy: [make_directory_tree] does with it exactly what
    it does without one, inheriting from the parent. *)
Theorem falsy_policy_is_no_policy (n : nat) (op : pyval)
    (sec : option pyval) :
  truthy op = false ->
  forall path w,
    make_directory_tree n path op sec w
    = make_directory_tree n path PNone sec w.
Proof.
  intros Ht.
  assert (H : forall path,
             make_directory_tree n path op sec
             = make_directory_tree n path PNone sec).
  { induction n as [|n IH]; intros path; [reflexivity|].
    cbn [make_directory_tree]. rewrite IH, Ht. reflexivity. }
  intros path w. now rewrite H.
Qed.

(** X12: with a truthy policy that is not a text (a dictionary, say), or
    a text [json.loads] refuses, [make_directory_tree] never returns an
    oid and never sends a write: no directory is created, at any depth. *)
Theorem bad_policy_creates_nothing (n : nat) (path : string) (op : pyval)
    (sec : option pyval) :
  truthy op = true ->
  match op with PStr s => json_loads s = None | _ => True end ->
  sends_only no_write (make_directory_tree n path op sec) /\
  returns (fun _ => False) (make_directory_tree n path op sec).
Proof.
  intros Ht Hbad. split.
  - now apply bad_policy_sends_no_write.
  - now apply bad_policy_never_returns.
Qed.

(** X13: a security tag given but falsy (the empty string) is neither
    used nor replaced by the parent's: with the parent in the cache the
    directory is written without a ["security"] key, after one read of the
    parent's properties. *)
Theorem falsy_security_is_dropped (n : nat) (path : string) (w : world)
    (oid p0 p s : pyval) :
  hierarchy w !! StrKey (path_str (path_parent (Path path))) = Some oid ->
  truthy oid = true ->
  dict_get "objectpolicy" (http_props (store w) oid) = Some p0 ->
  json_dumps p0 <> "" ->
  json_loads (json_dumps p0) = Some p ->
  truthy s = false ->
  exists new w',
    make_directory_tree (S n) path PNone (Some s) w = (Return new, w') /\
    calls w' =
    (calls w ++
     [CProps oid;
      CWrite [("action", PStr "U"); ("name", PStr (path_name (Path path)));
              ("parentoid", oid); ("isFile", PBool false);
              ("objectpolicy", p)]])%list.
Proof.
  intros Hh Ht Hp Hd Hl Hs.
  cbn [make_directory_tree]. unfold bind at 1.
  rewrite (find_file_hit _ _ _ _ Hh), Ht. cbn [negb].
  unfold bind at 1. unfold ret at 1. unfold bind at 1.
  rewrite (find_file_hit _ _ _ _ Hh).
  unfold bind, get_props, getitem, loads, post_write, record, ret. simpl.
  rewrite Hp. simpl.
  destruct (String.eqb_spec (json_dumps p0) "") as [|_]; [contradiction|].
  simpl. rewrite Hl, Hs. cbn [hierarchy store calls].
  cbn [dict_set String.eqb Ascii.eqb Bool.eqb].
  match goal with |- context [http_write ?st ?b] =>
    destruct (http_write st b) as [st' [ok new]] end.
  destruct ok; eexists; eexists; (split; [reflexivity|]);
    cbn [calls]; now rewrite <- app_assoc.
Qed.

End Edges.

Lemma falsy_policy_witness :
  make_directory_tree 3 "/a/b" (PStr "") None (connected tree_a)
  = make_directory_tree 3 "/a/b" PNone None (connected tree_a).
Proof.
  apply (falsy_policy_is_no_policy (SV := scenario)). reflexivity.
Defined.

Lemma bad_policy_witness :
  sends_only (SV := scenario) no_write
    (make_directory_tree 5 "/a/b/c" (policy "P1") None) /\
  returns (SV := scenario) (fun _ => False)
    (make_directory_tree 5 "/a/b/c" (policy "P1") None).
Proof.
  apply (bad_policy_creates_nothing (SV := scenario)); [reflexivity|exact I].
Defined.

Lemma falsy_security_witness :
  exists new w',
    make_directory_tree 1 "/a/b" PNone (Some (PStr "")) (connected tree_a)
    = (Return new, w') /\
    calls w' =
    (calls (connected tree_a) ++
     [CProps (PInt 2);
      CWrite [("action", PStr "U"); ("name", PStr "b");
              ("parentoid", PInt 2); ("isFile", PBool false);
              ("objectpolicy", policy "P0")]])%list.
Proof.
  apply (falsy_security_is_dropped (SV := scenario) 0 "/a/b"
           (connected tree_a) (PInt 2) (policy "P0") (policy "P0")
           (PStr "")); try (vm_compute; reflexivity).
  vm_compute. discriminate.
Defined.

(** ** MetadataBuilder: what it reads, keeps and cuts *)

Section Meta.
Context {SV : Services}.

Ltac split_goal :=
  repeat (simpl;
          match goal with
          | |- context [match ?x with _ => _ end] =>
              lazymatch x with
              | context [match _ with _ => _ end] => fail
              | _ => destruct x eqn:?
              end
          end); simpl.

Ltac split_hyp H :=
  repeat (simpl in H;
          match type of H with
          | context [match ?x with _ => _ end] =>
              lazymatch x with
              | context [match _ with _ => _ end] => fail
              | _ => destruct x eqn:?
              end
          end); simpl in H.

(** X14: for a target that is in the cache, [create_meta] costs exactly
    one request, the read of the target's properties, whatever the policy
    and keywords, and whether it returns or raises; the cache and the
    remote store are left as they are. *)
Theorem update_costs_one_read (n : nat) (f : string) (op : pyval)
    (kw : kwargs) (w : world) (oid : pyval) :
  hierarchy w !! StrKey f = Some oid -> truthy oid = true ->
  after (create_meta n f op kw) w
  = mkWorld (hierarchy w) (store w) (calls w ++ [CProps oid]).
Proof.
  intros Hh Ht. unfold after, create_meta. unfold bind at 1.
  rewrite (find_file_hit _ _ _ _ Hh), Ht.
  unfold bind, get_props, loads, ret, raise.
  split_goal; reflexivity.
Qed.

(** X15: for a new target whose parent resolves from the cache,
    [create_meta] writes nothing: after the lookup of the target it sends
    at most two requests, reads of the parent's properties (one for the
    policy when none is given, one for the security tag when none is
    given), and leaves the cache and the remote store as they are. *)
Theorem create_under_known_parent (n : nat) (f : string) (op : pyval)
    (kw : kwargs) (w w1 : world) (oid poid : pyval) :
  find_file n f w = (Return oid, w1) -> truthy oid = false ->
  hierarchy w1 !! StrKey (path_str (path_parent (Path f))) = Some poid ->
  truthy poid = true ->
  exists k, (k <= 2)%nat /\
    after (create_meta n f op kw) w
    = mkWorld (hierarchy w1) (store w1)
        (calls w1 ++ List.repeat (CProps poid) k).
Proof.
  intros Hf Ht Hp Htp. unfold after, create_meta. unfold bind at 1.
  rewrite Hf, Ht. unfold bind at 1.
  rewrite (find_file_hit _ _ _ _ Hp), Htp. cbn [negb].
  unfold bind, get_props, getitem, loads, index0, ret, raise.
  split_goal;
    first [ exists 0%nat; split; [lia|]; simpl; rewrite ?app_nil_r;
            destruct w1; reflexivity
          | exists 1%nat; split; [lia|]; reflexivity
          | exists 2%nat; split; [lia|]; simpl;
            rewrite <- ?app_assoc; reflexivity ].
Qed.

(** X16: a mimetype given as a text is cut to its first character: the
    record of a new target carries [mimetype[0]], which is the type for
    the tuple of [guess_type] and one character for a text. *)
Theorem text_mimetype_is_cut (n : nat) (f : string) (op : pyval)
    (kw : kwargs) (w w1 w' : world) (oid : pyval) (meta : dict)
    (c : ascii) (rest : string) :
  find_file n f w = (Return oid, w1) -> truthy oid = false ->
  kw_mimetype kw = Some (PStr (String c rest)) ->
  create_meta n f op kw w = (Return meta, w') ->
  dict_get "mimetype" meta = Some (PStr (String c "")).
Proof.
  intros Hf Ht Hm H. unfold create_meta, bind in H.
  rewrite Hf, Ht, Hm in H.
  unfold get_props, getitem, loads, index0, ret, raise in H.
  split_hyp H; inversion H; subst; reflexivity.
Qed.

(** X17: the record [create_meta] returns for an existing target keeps
    every property fetched from the store except the three it overlays:
    ["action"], ["objectpolicy"] and ["security"]. *)
Theorem update_keeps_other_properties (n : nat) (f : string) (op : pyval)
    (kw : kwargs) (w w1 w' : world) (oid : pyval) (meta : dict)
    (k : string) :
  find_file n f w = (Return oid, w1) -> truthy oid = true ->
  create_meta n f op kw w = (Return meta, w') ->
  k <> "action" -> k <> "objectpolicy" -> k <> "security" ->
  dict_get k meta = dict_get k (http_props (store w1) oid).
Proof.
  intros Hf Ht H Ka Kp Ks. unfold create_meta, bind in H.
  rewrite Hf, Ht in H. unfold get_props, loads, ret, raise in H.
  assert (Ea : ("action" =? k) = false) by (apply String.eqb_neq; congruence).
  assert (Ep : ("objectpolicy" =? k) = false)
    by (apply String.eqb_neq; congruence).
  assert (Es : ("security" =? k) = false)
    by (apply String.eqb_neq; congruence).
  split_hyp H; inversion H; subst;
    rewrite ?dict_get_set, ?Ea, ?Ep, ?Es; reflexivity.
Qed.

(** X18: a truthy policy that is no text (a dictionary) is taken as it is
    when the target exists, and makes [create_meta] raise, with nothing
    written, when the target is new. *)
Theorem structured_policy_updates_only (n : nat) (f : string) (op : pyval)
    (kw : kwargs) (w w1 : world) (oid : pyval) :
  truthy op = true -> (forall s, op <> PStr s) ->
  find_file n f w = (Return oid, w1) ->
  if truthy oid
  then exists meta w',
         create_meta n f op kw w = (Return meta, w') /\
         dict_get "objectpolicy" meta = Some op
  else exists e w',
         create_meta n f op kw w = (Raise e, w') /\
         exists cs, calls w' = (calls w1 ++ cs)%list /\ Forall no_write cs.
Proof.
  intros Hto Hns Hf.
  assert (Hbad : match op with PStr s => json_loads s = None | _ => True end).
  { destruct op; try exact I. now destruct (Hns s). }
  destruct (truthy oid) eqn:Ht; unfold create_meta; unfold bind at 1;
    rewrite Hf, Ht.
  - unfold bind, get_props, ret. rewrite Hto.
    destruct op; try (now destruct (Hns s));
      destruct (kw_security kw) as [s0|]; try destruct (truthy s0);
      eexists; eexists; (split; [reflexivity|]);
      rewrite ?dict_get_set; reflexivity.
  - unfold bind at 1.
    destruct (so_find_file no_write no_write_list n
                (path_str (path_parent (Path f))) w1) as (cs1 & C1 & F1).
    unfold after in C1.
    destruct (find_file n (path_str (path_parent (Path f))) w1)
      as [[poid|e] w2]; simpl in C1; [|eauto 6].
    unfold bind at 1.
    destruct (negb (truthy poid)).
    + destruct (bad_policy_creates_nothing n
                  (path_str (path_parent (Path f))) op None Hto Hbad)
        as [Hs Hn].
      destruct (Hs w2) as (cs2 & C2 & F2). unfold after in C2.
      destruct (make_directory_tree n _ op None w2) as [[a|e] w3] eqn:E.
      * destruct (Hn _ _ _ E).
      * simpl in C2. eexists; eexists; split; [reflexivity|].
        exists (cs1 ++ cs2)%list. rewrite C2, C1, app_assoc.
        split; [reflexivity|]. now apply Forall_app.
    + unfold ret at 1. rewrite Hto. cbn [negb]. unfold bind at 1.
      destruct (loads_raises op Hbad) as [e ->].
      eexists; eexists; split; [reflexivity|]. eauto.
Qed.

End Meta.

Lemma update_costs_one_read_witness :
  after (create_meta 5 "/log" PNone no_kwargs) (connected tree_file)
  = mkWorld (hierarchy (connected tree_file)) (store (connected tree_file))
      (calls (connected tree_file) ++ [CProps (PInt 2)]).
Proof.
  apply (update_costs_one_read (SV := scenario)); reflexivity.
Defined.

Lemma create_under_known_parent_witness :
  exists k, (k <= 2)%nat /\
    after (create_meta 5 "/a/x.txt" PNone no_kwargs) (connected tree_a)
    = mkWorld
        (hierarchy (after (find_file 5 "/a/x.txt") (connected tree_a)))
        (store (after (find_file 5 "/a/x.txt") (connected tree_a)))
        (calls (after (find_file 5 "/a/x.txt") (connected tree_a))
         ++ List.repeat (CProps (PInt 2)) k).
Proof.
  apply (create_under_known_parent (SV := scenario) 5 "/a/x.txt" PNone
           no_kwargs (connected tree_a)
           (after (find_file 5 "/a/x.txt") (connected tree_a))
           PNone (PInt 2)); vm_compute; reflexivity.
Defined.

Lemma text_mimetype_witness :
  exists meta,
    result (create_meta 5 "/a/x.bin" PNone
              {| kw_mimetype := Some (PStr "image/png");
                 kw_local_filename := None; kw_security := None |})
      (connected tree_a) = Return meta /\
    dict_get "mimetype" meta = Some (PStr "i").
Proof.
  eexists. split; [vm_compute; reflexivity|].
  apply (text_mimetype_is_cut (SV := scenario) 5 "/a/x.bin" PNone
           {| kw_mimetype := Some (PStr "image/png");
              kw_local_filename := None; kw_security := None |}
           (connected tree_a)
           (after (find_file 5 "/a/x.bin") (connected tree_a))
           (after (create_meta 5 "/a/x.bin" PNone
                     {| kw_mimetype := Some (PStr "image/png");
                        kw_local_filename := None; kw_security := None |})
              (connected tree_a))
           PNone _ "i" "mage/png"); vm_compute; reflexivity.
Defined.

Lemma update_keeps_other_properties_witness :
  exists meta,
    result (create_meta 5 "/log" (PStr (policy_text "P1")) no_kwargs)
      (connected tree_file) = Return meta /\
    dict_get "parentoid" meta
    = dict_get "parentoid" (store_props tree_file (PInt 2)).
Proof.
  eexists. split; [vm_compute; reflexivity|].
  apply (update_keeps_other_properties (SV := scenario) 5 "/log"
           (PStr (policy_text "P1")) no_kwargs (connected tree_file)
           (after (find_file 5 "/log") (connected tree_file))
           (after (create_meta 5 "/log" (PStr (policy_text "P1")) no_kwargs)
              (connected tree_file))
           (PInt 2)); try discriminate; vm_compute; reflexivity.
Defined.

Lemma structured_policy_witness :
  exists e w',
    create_meta 5 "/a/x.txt" (policy "P1") no_kwargs (connected tree_a)
    = (Raise e, w') /\
    exists cs,
      calls w'
      = (calls (after (find_file 5 "/a/x.txt") (connected tree_a)) ++ cs)%list
      /\ Forall no_write cs.
Proof.
  apply (structured_policy_updates_only (SV := scenario) 5 "/a/x.txt"
           (policy "P1") no_kwargs (connected tree_a)
           (after (find_file 5 "/a/x.txt") (connected tree_a)) PNone);
    [reflexivity | discriminate | vm_compute; reflexivity].
Defined.

(** ** PartResolver and uploads *)

Section Parts.
Context {SV : Services}.

(** X19: for a path that is in the cache and whose properties mark it as
    a file, [get_part] takes the file's parent as the container: it reads
    the file's properties, lists the parent, and returns the next part
    among the parent's files. *)
Theorem cached_file_uses_parent (n : nat) (f : string) (op : pyval)
    (w : world) (oid b p : pyval) :
  hierarchy w !! StrKey f = Some oid ->
  dict_get "isfile" (http_props (store w) oid) = Some b ->
  truthy b = true ->
  dict_get "parentoid" (http_props (store w) oid) = Some p ->
  get_part n f op w =
  (Return (next_part (http_list (store w) p)),
   mkWorld (hierarchy w) (store w) (calls w ++ [CProps oid; CList p])).
Proof.
  intros Hh Hb Ht Hp.
  unfold get_part, bind, lookup_h, get_props, get_list, ret.
  rewrite Hh. simpl. rewrite Hb, Ht, Hp. simpl. now rewrite <- app_assoc.
Qed.

(** X20: the first append to a logical path that resolves nowhere, below
    a parent that is in the cache, creates a directory named as the
    logical file under that parent, with the parent's policy and security
    tag, and returns ["aaa"] without listing anything. *)
Theorem first_part_creates_directory (n : nat) (f : string) (w w1 : world)
    (oid poid p0 p s0 : pyval) :
  hierarchy w !! StrKey f = None ->
  find_file (S n) f w = (Return oid, w1) -> truthy oid = false ->
  hierarchy w1 !! StrKey (path_str (path_parent (Path f))) = Some poid ->
  truthy poid = true ->
  dict_get "objectpolicy" (http_props (store w1) poid) = Some p0 ->
  json_dumps p0 <> "" ->
  json_loads (json_dumps p0) = Some p ->
  dict_get "security" (http_props (store w1) poid) = Some s0 ->
  result (get_part (S n) f PNone) w = Return "aaa" /\
  calls (after (get_part (S n) f PNone) w) =
  (calls w1 ++
   [CProps poid; CProps poid;
    CWrite [("action", PStr "U"); ("name", PStr (path_name (Path f)));
            ("parentoid", poid); ("isFile", PBool false);
            ("objectpolicy", p); ("security", s0)]])%list.
Proof.
  intros Hh Hf Ht Hp Htp Ho Hd Hl Hs.
  pose proof (ensure_one_step n f w1 poid p0 p s0 Hp Htp Ho Hd Hl Hs) as E.
  cbv zeta in E.
  unfold result, after, get_part, bind, lookup_h.
  rewrite Hh. cbv beta iota. rewrite Hf. cbv beta iota.
  rewrite Ht. cbn [negb]. cbv beta iota. rewrite E.
  split; reflexivity.
Qed.

End Parts.

Section UploadFacts.
Context {SV : Services} {FS : Files}.

Lemma upload_success (n : nat) (lf df : string) (op : pyval)
    (mt sec : option pyval) (w w' : world) :
  upload_file n lf df op mt sec w = (Return (Uploaded true), w') ->
  exists meta w1 f st oid,
    create_meta n df op
      {| kw_mimetype := mt; kw_local_filename := Some lf;
         kw_security := sec |} w = (Return meta, w1) /\
    open_rb lf = Some f /\
    http_upload (store w1) meta f = (st, (true, oid)) /\
    w' = mkWorld (<[StrKey df := oid]> (hierarchy w1)) st
           (calls w1 ++ [CWrite meta]) /\
    (forall m, find_file m df w' = (Return oid, w')) /\
    (forall m w'',
        (forall k, is_Some (hierarchy w' !! k) ->
                   is_Some (hierarchy w'' !! k)) ->
        exists oid', hierarchy w'' !! StrKey df = Some oid' /\
                     find_file m df w'' = (Return oid', w'')).
Proof.
  intros H. unfold upload_file in H. unfold bind at 1 in H.
  destruct (create_meta n df op _ w) as [[meta|e] w1]; [|discriminate].
  destruct (open_rb lf) as [f|] eqn:Ho; [|discriminate].
  unfold bind, post_upload, record, ret in H.
  destruct (http_upload (store w1) meta f) as [st [ok oid]] eqn:Hu.
  destruct ok; inversion H; subst.
  exists meta, w1, f, st, oid.
  split; [reflexivity|]. split; [reflexivity|]. split; [exact Hu|].
  split; [reflexivity|]. split.
  - intros m. apply find_file_hit. simpl. apply lookup_insert_eq.
  - intros m w'' K. eapply key_stays_answered; [|exact K].
    simpl. rewrite lookup_insert_eq. eauto.
Qed.


(** X21: when [upload_file] returns [True], its last request was the
    upload of the record [create_meta] built for the target path, nothing
    else was sent after [create_meta], and the oid the store answered is
    recorded under the target path as given: a [find_file] of that path
    run next returns it with no request, and in any later state of the
    client that still has every key of that cache the path is answered
    from the cache with no request, by the oid the cache holds then. *)
Theorem upload_then_resolve (n : nat) (lf df : string) (op : pyval)
    (mt sec : option pyval) (w w' : world) :
  upload_file n lf df op mt sec w = (Return (Uploaded true), w') ->
  exists meta w1 f st oid,
    create_meta n df op
      {| kw_mimetype := mt; kw_local_filename := Some lf;
         kw_security := sec |} w = (Return meta, w1) /\
    open_rb lf = Some f /\
    http_upload (store w1) meta f = (st, (true, oid)) /\
    w' = mkWorld (<[StrKey df := oid]> (hierarchy w1)) st
           (calls w1 ++ [CWrite meta]) /\
    (forall m, find_file m df w' = (Return oid, w')) /\
    (forall m w'',
        (forall k, is_Some (hierarchy w' !! k) ->
                   is_Some (hierarchy w'' !! k)) ->
        exists oid', hierarchy w'' !! StrKey df = Some oid' /\
                     find_file m df w'' = (Return oid', w'')).
Proof. apply upload_success. Qed.

(** X22: when [upload_file] returns [False], or [open] raises on the
    local file, nothing is recorded: the cache is the one [create_meta]
    left, which ran before the file was opened. *)
Theorem failed_upload_records_nothing (n : nat) (lf df : string)
    (op : pyval) (mt sec : option pyval) (w w' : world)
    (res : upload_result) :
  upload_file n lf df op mt sec w = (Return res, w') ->
  res <> Uploaded true ->
  exists meta w1,
    create_meta n df op
      {| kw_mimetype := mt; kw_local_filename := Some lf;
         kw_security := sec |} w = (Return meta, w1) /\
    hierarchy w' = hierarchy w1.
Proof.
  intros H Hres. unfold upload_file in H. unfold bind at 1 in H.
  destruct (create_meta n df op _ w) as [[meta|e] w1]; [|discriminate].
  exists meta, w1. split; [reflexivity|].
  destruct (open_rb lf) as [f|]; [|now inversion H].
  unfold bind, post_upload, record, ret in H.
  destruct (http_upload (store w1) meta f) as [st [ok oid]].
  destruct ok; inversion H; subst; [congruence|reflexivity].
Qed.

(** X23: when [append_file] returns [True], [get_part] returned a part
    name, [create_meta] built the record for the logical path joined with
    that name, the last request was the upload of that record with the
    local file, and the oid the store answered to it is recorded under the
    part path: a [find_file] of the part path run next returns that oid
    with no request. *)
Theorem append_then_resolve (n : nat) (lf df : string) (op : pyval)
    (w w' : world) :
  append_file n lf df op w = (Return (Uploaded true), w') ->
  exists part w1 meta w2 f st oid,
    get_part n df op w = (Return part, w1) /\
    create_meta n (df +:+ "/" +:+ part) op
      {| kw_mimetype := None; kw_local_filename := Some lf;
         kw_security := None |} w1 = (Return meta, w2) /\
    open_rb lf = Some f /\
    http_upload (store w2) meta f = (st, (true, oid)) /\
    w' = mkWorld (<[StrKey (df +:+ "/" +:+ part) := oid]> (hierarchy w2)) st
           (calls w2 ++ [CWrite meta]) /\
    forall m, find_file m (df +:+ "/" +:+ part) w' = (Return oid, w').
Proof.
  intros H. unfold append_file in H. unfold bind at 1 in H.
  destruct (get_part n df op w) as [[part|e] w1]; [|discriminate].
  destruct (upload_success _ _ _ _ _ _ _ _ H)
    as (meta & w2 & f & st & oid & Hc & Ho & Hu & Hw & Hr & _).
  exists part, w1, meta, w2, f, st, oid.
  split; [reflexivity|]. auto.
Qed.

End UploadFacts.

Lemma cached_file_uses_parent_witness :
  get_part 5 "/log" PNone (connected tree_file) =
  (Return (next_part (store_list tree_file (PInt 1))),
   mkWorld (hierarchy (connected tree_file)) (store (connected tree_file))
     (calls (connected tree_file) ++ [CProps (PInt 2); CList (PInt 1)])).
Proof.
  apply (cached_file_uses_parent (SV := scenario) 5 "/log" PNone
           (connected tree_file) (PInt 2) (PBool true) (PInt 1));
    reflexivity.
Defined.

Lemma first_part_witness :
  result (get_part 5 "/a/log" PNone) (connected tree_a) = Return "aaa" /\
  calls (after (get_part 5 "/a/log" PNone) (connected tree_a)) =
  (calls (after (find_file 5 "/a/log") (connected tree_a)) ++
   [CProps (PInt 2); CProps (PInt 2);
    CWrite [("action", PStr "U"); ("name", PStr "log");
            ("parentoid", PInt 2); ("isFile", PBool false);
            ("objectpolicy", policy "P0"); ("security", PStr "S0")]])%list.
Proof.
  apply (first_part_creates_directory (SV := scenario) 4 "/a/log"
           (connected tree_a)
           (after (find_file 5 "/a/log") (connected tree_a))
           PNone (PInt 2) (policy "P0") (policy "P0") (PStr "S0"));
    try (vm_compute; reflexivity).
  vm_compute. discriminate.
Defined.

Lemma upload_then_resolve_witness :
  exists meta w1 oid,
    create_meta 5 "/a/x.txt" PNone
      {| kw_mimetype := None; kw_local_filename := Some "local.txt";
         kw_security := None |} (connected tree_a) = (Return meta, w1) /\
    calls (after (upload_file (FS := scenario_files) 5 "local.txt" "/a/x.txt"
                    PNone None None) (connected tree_a))
    = (calls w1 ++ [CWrite meta])%list /\
    find_file 0 "/a/x.txt"
      (after (upload_file (FS := scenario_files) 5 "local.txt" "/a/x.txt"
                PNone None None) (connected tree_a))
    = (Return oid,
       after (upload_file (FS := scenario_files) 5 "local.txt" "/a/x.txt"
                PNone None None) (connected tree_a)).
Proof.
  destruct (upload_then_resolve (FS := scenario_files) 5 "local.txt"
              "/a/x.txt" PNone None None (connected tree_a)
              (after (upload_file (FS := scenario_files) 5 "local.txt"
                        "/a/x.txt" PNone None None) (connected tree_a)))
    as (meta & w1 & f & st & oid & Hc & _ & _ & Hw & H & _).
  - vm_compute. reflexivity.
  - exists meta, w1, oid. split; [exact Hc|]. split; [|apply H].
    now rewrite Hw.
Defined.

Lemma failed_upload_witness :
  exists meta w1,
    create_meta 5 "/a/x.txt" PNone
      {| kw_mimetype := None; kw_local_filename := Some "missing.txt";
         kw_security := None |} (connected tree_a) = (Return meta, w1) /\
    hierarchy (after (upload_file (FS := scenario_files) 5 "missing.txt"
                        "/a/x.txt" PNone None None) (connected tree_a))
    = hierarchy w1.
Proof.
  apply (failed_upload_records_nothing (FS := scenario_files) 5
           "missing.txt" "/a/x.txt" PNone None None (connected tree_a)
           _ OSError); [vm_compute; reflexivity|discriminate].
Defined.

Lemma append_then_resolve_witness :
  exists part w1 meta w2 f st oid,
    get_part 5 "/log" PNone (connected tree_parts) = (Return part, w1) /\
    create_meta 5 ("/log" +:+ "/" +:+ part) PNone
      {| kw_mimetype := None; kw_local_filename := Some "local.txt";
         kw_security := None |} w1 = (Return meta, w2) /\
    open_rb (Files := scenario_files) "local.txt" = Some f /\
    http_upload (Files := scenario_files) (store w2) meta f
    = (st, (true, oid)) /\
    after (append_file (FS := scenario_files) 5 "local.txt" "/log" PNone)
      (connected tree_parts)
    = mkWorld (<[StrKey ("/log" +:+ "/" +:+ part) := oid]> (hierarchy w2)) st
        (calls w2 ++ [CWrite meta]) /\
    forall m,
      find_file m ("/log" +:+ "/" +:+ part)
        (after (append_file (FS := scenario_files) 5 "local.txt" "/log"
                  PNone) (connected tree_parts))
      = (Return oid,
         after (append_file (FS := scenario_files) 5 "local.txt" "/log"
                  PNone) (connected tree_parts)).
Proof.
  apply (append_then_resolve (FS := scenario_files) 5 "local.txt" "/log"
           PNone (connected tree_parts)).
  vm_compute. reflexivity.
Defined.

(** ** The repopulation against the remote tree *)

Section Walk.
Context {SV : Services}.

Lemma for_each_establishes {A} (st : remote) (body : A -> M unit)
    (Q : A -> world -> Prop) :
  (forall j w w1, store w = st -> body j w = (Return tt, w1) -> Q j w1) ->
  (forall j w w', Q j w -> refreshed w w' -> Q j w') ->
  (forall j w, refreshed w (after (body j) w)) ->
  forall l w w',
    store w = st -> for_each l body w = (Return tt, w') ->
    forall j, In j l -> Q j w'.
Proof.
  intros Hq Hmono Href. induction l as [|i l IH]; intros w w' Hst H j Hj;
    [destruct Hj|].
  cbn [for_each] in H. unfold bind at 1 in H.
  destruct (body i w) as [[[]|e] w1] eqn:Hb; [|discriminate].
  pose proof (Href i w) as R1. unfold after in R1. rewrite Hb in R1.
  assert (Hst1 : store w1 = st)
    by (destruct R1 as (E1 & _); simpl in E1; congruence).
  destruct Hj as [<-|Hj]; [|now apply (IH w1 w' Hst1 H)].
  apply (Hmono i w1 w'); [now apply (Hq i w w1)|].
  pose proof (refreshed_for_each body l Href w1) as R2.
  unfold after in R2. now rewrite H in R2.
Qed.

Lemma for_each_returns {A} (st : remote) (body : A -> M unit) (l : list A) :
  (forall j, In j l -> forall w, store w = st ->
             exists w1, body j w = (Return tt, w1)) ->
  (forall j w, refreshed w (after (body j) w)) ->
  forall w, store w = st -> exists w', for_each l body w = (Return tt, w').
Proof.
  intros Hret Href. induction l as [|i l IH]; intros w Hst; [now exists w|].
  cbn [for_each]. unfold bind at 1.
  destruct (Hret i (or_introl eq_refl) w Hst) as [w1 Hb].
  pose proof (Href i w) as R1. unfold after in R1. rewrite Hb in R1.
  rewrite Hb. apply IH.
  - intros j Hj. apply Hret. now right.
  - destruct R1 as (E1 & _). simpl in E1. congruence.
Qed.

(** When [populate_hierarchy] returns, every entry listed for a
    directory it walked is a key of the cache. *)
Lemma populate_walks (n : nat) :
  forall p oid w w',
    populate_hierarchy n p oid w = (Return tt, w') ->
    forall q o j,
      walked (store w) p oid q o -> In j (http_list (store w) o) ->
      is_Some (hierarchy w' !! StrKey (child_path q j)).
Proof.
  induction n as [|n IH]; intros p oid w w' H q o j Hw Hj; [discriminate|].
  cbn [populate_hierarchy] in H. unfold bind at 1, get_list at 1 in H.
  assert (HQ : forall i, In i (http_list (store w) oid) ->
             is_Some (hierarchy w' !! StrKey (child_path p i)) /\
             (e_isfile i = None -> forall q o j,
                walked (store w) (child_path p i) (e_oid i) q o ->
                In j (http_list (store w) o) ->
                is_Some (hierarchy w' !! StrKey (child_path q j)))).
  { refine (for_each_establishes (store w) _
              (fun i w0 =>
                 is_Some (hierarchy w0 !! StrKey (child_path p i)) /\
                 (e_isfile i = None -> forall q o j,
                    walked (store w) (child_path p i) (e_oid i) q o ->
                    In j (http_list (store w) o) ->
                    is_Some (hierarchy w0 !! StrKey (child_path q j))))
              _ _ _ _ _ _ _ H); [| | |reflexivity].
    - intros i w0 w1 Hst Hb. unfold bind at 1, record at 1 in Hb.
      destruct (e_isfile i) eqn:Ef.
      + inversion Hb; subst. split; [|discriminate].
        simpl. rewrite lookup_insert_eq. eauto.
      + match type of Hb with populate_hierarchy _ ?p0 ?o0 ?w2 = _ =>
          destruct (refreshed_populate n p0 o0 w2) as (_ & K & _);
          pose proof (IH p0 o0 w2 w1 Hb) as Hsub end.
        unfold after in K. rewrite Hb in K. split.
        * apply K. simpl. rewrite lookup_insert_eq. eauto.
        * intros _ q0 o0 j0 Hw0 Hj0. apply (Hsub q0 o0 j0); simpl; now rewrite Hst.
    - intros i w0 w1 [H1 H2] (_ & K & _). split; [now apply K|].
      intros Ef q0 o0 j0 Hw0 Hj0. apply K. now apply (H2 Ef q0 o0 j0).
    - intros i w0. apply populate_body_refreshed. }
  inversion Hw as [|p0 oid0 i q0 o0 Hi Ef Hsub]; subst.
  - now apply HQ.
  - destruct (HQ i Hi) as [_ H2]. now apply (H2 Ef q o j).
Qed.

(** [populate_hierarchy] returns when its fuel exceeds the depth of the
    directories below the oid. *)
Lemma populate_returns (n : nat) :
  forall p oid w,
    depth_below n (store w) oid ->
    exists w', populate_hierarchy n p oid w = (Return tt, w').
Proof.
  induction n as [|n IH]; intros p oid w Hd; [destruct Hd|].
  cbn [populate_hierarchy]. unfold bind at 1, get_list at 1.
  apply (for_each_returns (store w)); [| |reflexivity].
  - intros j Hj w0 Hst. unfold bind at 1, record at 1.
    destruct (e_isfile j) eqn:Ef; [eexists; reflexivity|].
    apply IH. simpl. rewrite Hst. now apply Hd.
  - intros j w0. apply populate_body_refreshed.
Qed.

Lemma populate_only_lists (n : nat) (p : string) (oid : pyval) (w : world) :
  exists cs,
    calls (after (populate_hierarchy (S n) p oid) w)
    = (calls w ++ CList oid :: cs)%list /\ Forall is_listing cs.
Proof.
  unfold after. cbn [populate_hierarchy]. unfold bind at 1, get_list at 1.
  match goal with |- context [for_each ?l ?body ?w0] =>
    destruct (so_for_each is_listing l body) with (w := w0)
      as (cs & C & F) end.
  { intros j. apply so_bind; [apply so_record|]. intros _.
    destruct (e_isfile j); [apply so_ret|].
    apply so_populate_hierarchy. intros o. exact I. }
  unfold after in C. exists cs. split; [|exact F].
  rewrite C. simpl. now rewrite <- app_assoc.
Qed.

End Walk.

Section Resolve.
Context {SV : Services}.

Lemma find_file_miss (n : nat) (f : string) (w : world) :
  hierarchy w !! StrKey f = None ->
  find_file n f w =
  match populate_hierarchy n "/" (PInt 1) w with
  | (Return _, w') =>
      (Return (default PNone (hierarchy w' !! StrKey f)), w')
  | (Raise e, w') => (Raise e, w')
  end.
Proof.
  intros Hm. unfold find_file, bind at 1, lookup_h at 1. rewrite Hm.
  unfold bind at 1. destruct (populate_hierarchy n "/" (PInt 1) w)
    as [[[]|e] w']; [|reflexivity].
  unfold bind, lookup_h. now destruct (hierarchy w' !! StrKey f).
Qed.

Lemma find_file_lists_root (n : nat) (f : string) (w : world) :
  hierarchy w !! StrKey f = None ->
  exists cs,
    calls (after (find_file (S n) f) w)
    = (calls w ++ CList (PInt 1) :: cs)%list /\ Forall is_listing cs.
Proof.
  intros Hm. destruct (populate_only_lists n "/" (PInt 1) w) as (cs & C & F).
  exists cs. split; [|exact F]. rewrite <- C. unfold after.
  rewrite (find_file_miss _ _ _ Hm).
  now destruct (populate_hierarchy (S n) "/" (PInt 1) w) as [[[]|e] w'].
Qed.

End Resolve.

(** C6 (the code against the claim): [find_file] answers from the cache,
    without a request, exactly the paths recorded under their string, and
    a path recorded under a [PosixPath] key, as [make_directory_tree]
    records it, is not among them.

    A string key is answered with its oid and the client is left as it
    was.  A path that is no string key, in front of a remote tree whose
    directories are nested less deep than the fuel, costs one
    [populate_hierarchy] from the root: it returns, its first request is
    the listing of oid 1 and all its requests are listings, it leaves the
    store alone and drops no key, and every entry listed for a directory
    of the remote tree is a key afterwards; [find_file] then returns what
    the cache holds under the string, or [None].  An entry under the
    [PosixPath] key of the path does not keep [find_file] from listing
    the root: the path [make_directory_tree "/a/b"] has just recorded
    costs three listings, as many as a path that does not exist. *)
Theorem find_file_misses_recorded_path :
  (forall (SV : Services) (n : nat) (f : string) (w : world) (oid : pyval),
      hierarchy w !! StrKey f = Some oid ->
      find_file n f w = (Return oid, w)) /\
  (forall (SV : Services) (n : nat) (f : string) (w : world),
      hierarchy w !! StrKey f = None ->
      depth_below n (store w) (PInt 1) ->
      exists w' cs,
        populate_hierarchy n "/" (PInt 1) w = (Return tt, w') /\
        find_file n f w
        = (Return (default PNone (hierarchy w' !! StrKey f)), w') /\
        store w' = store w /\
        calls w' = (calls w ++ CList (PInt 1) :: cs)%list /\
        Forall is_listing cs /\
        (forall k, is_Some (hierarchy w !! k) -> is_Some (hierarchy w' !! k)) /\
        (forall q o j,
            walked (store w) "/" (PInt 1) q o ->
            In j (http_list (store w) o) ->
            is_Some (hierarchy w' !! StrKey (child_path q j)))) /\
  (forall (SV : Services) (n : nat) (f : string) (w : world) (oid : pyval),
      hierarchy w !! PathKey (Path f) = Some oid ->
      hierarchy w !! StrKey f = None ->
      exists cs,
        calls (after (find_file (S n) f) w)
        = (calls w ++ CList (PInt 1) :: cs)%list /\ Forall is_listing cs) /\
  let w0 := connected tree_a in
  let w1 := after (make_directory_tree 10 "/a/b" PNone None) w0 in
  written (calls w1)
  = (written (calls w0) ++ [(Some (PStr "b"), Some (PInt 2))])%list /\
  hierarchy w1 !! PathKey (Path "/a/b") = Some (PInt 3) /\
  hierarchy w1 !! StrKey "/a/b" = None /\
  result (find_file 10 "/a/b") w1 = Return (PInt 3) /\
  calls (after (find_file 10 "/a/b") w1)
  = (calls w1 ++ [CList (PInt 1); CList (PInt 2); CList (PInt 3)])%list /\
  find_file 10 "/a" w1 = (Return (PInt 2), w1) /\
  result (find_file 10 "/nowhere") w1 = Return PNone /\
  calls (after (find_file 10 "/nowhere") w1)
  = (calls w1 ++ [CList (PInt 1); CList (PInt 2); CList (PInt 3)])%list.
Proof.
  split; [|split; [|split]].
  - intros SV n f w oid Hh. unfold find_file, bind, lookup_h. now rewrite Hh.
  - intros SV n f w Hm Hd.
    destruct (populate_returns n "/" (PInt 1) w Hd) as [w' Hp].
    destruct n as [|n]; [destruct Hd|].
    destruct (populate_only_lists n "/" (PInt 1) w) as (cs & C & F).
    destruct (refreshed_populate (S n) "/" (PInt 1) w) as (S1 & K & _).
    unfold after in C, S1, K. rewrite Hp in C, S1, K. simpl in C, S1, K.
    exists w', cs. repeat split; try assumption.
    + rewrite (find_file_miss _ _ _ Hm). now rewrite Hp.
    + intros q o j. now apply (populate_walks (S n) "/" (PInt 1) w w' Hp).
  - intros SV n f w oid _ Hm. now apply find_file_lists_root.
  - vm_compute. repeat split; reflexivity.
Qed.

Lemma find_file_misses_witness :
  exists w' cs,
    populate_hierarchy 3 "/" (PInt 1) (fresh tree_parts) = (Return tt, w') /\
    find_file 3 "/log/aaa" (fresh tree_parts)
    = (Return (default PNone (hierarchy w' !! StrKey "/log/aaa")), w') /\
    store w' = store (fresh tree_parts) /\
    calls w' = (calls (fresh tree_parts) ++ CList (PInt 1) :: cs)%list /\
    Forall is_listing cs /\
    (forall k, is_Some (hierarchy (fresh tree_parts) !! k) ->
               is_Some (hierarchy w' !! k)) /\
    (forall q o j,
        walked (store (fresh tree_parts)) "/" (PInt 1) q o ->
        In j (http_list (store (fresh tree_parts)) o) ->
        is_Some (hierarchy w' !! StrKey (child_path q j))).
Proof.
  apply (proj1 (proj2 find_file_misses_recorded_path) scenario 3
           "/log/aaa" (fresh tree_parts)); [vm_compute; reflexivity|].
  cbn [depth_below]. intros j Hj _. vm_compute in Hj.
  destruct Hj as [<-|[]]. intros i Hi Hf. vm_compute in Hi.
  repeat (destruct Hi as [<-|Hi]; [discriminate Hf|]). destruct Hi.
Defined.

(** ** The ascent of [make_directory_tree] *)

Section Ascent.
Context {SV : Services}.

Lemma for_each_keeps {A} (I : world -> Prop) (body : A -> M unit)
    (l : list A) :
  (forall j, In j l -> forall w, I w -> I (after (body j) w)) ->
  forall w, I w -> I (after (for_each l body) w).
Proof.
  induction l as [|i l IH]; intros Hb w Hw; [exact Hw|].
  unfold after. cbn [for_each]. unfold bind at 1.
  pose proof (Hb i (or_introl eq_refl) w Hw) as H1. unfold after in H1.
  destruct (body i w) as [[[]|e] w1]; [|exact H1].
  apply IH; [|exact H1]. intros j Hj. apply Hb. now right.
Qed.

Lemma for_each_raises {A} (x : exn) (body : A -> M unit) (l : list A) :
  (forall j w e w', body j w = (Raise e, w') -> e = x) ->
  forall w e w', for_each l body w = (Raise e, w') -> e = x.
Proof.
  intros Hb. induction l as [|i l IH]; intros w e w' H; [discriminate|].
  cbn [for_each] in H. unfold bind at 1 in H.
  destruct (body i w) as [[[]|e1] w1] eqn:E.
  - now apply (IH w1 e w').
  - inversion H; subst. now apply (Hb i w e w').
Qed.

(** The only exception [populate_hierarchy] raises is the exhausted
    stack. *)
Lemma populate_raises (n : nat) :
  forall p oid w e w',
    populate_hierarchy n p oid w = (Raise e, w') -> e = RecursionError.
Proof.
  induction n as [|n IH]; intros p oid w e w' H; [now inversion H|].
  cbn [populate_hierarchy] in H. unfold bind at 1, get_list at 1 in H.
  eapply for_each_raises; [|exact H].
  intros j w0 e0 w1 Hb. unfold bind at 1, record at 1 in Hb.
  destruct (e_isfile j); [discriminate|]. now apply IH in Hb.
Qed.

Lemma slash_not_below (p t : string) : p <> "" -> p +:+ "/" +:+ t <> "/".
Proof.
  intros Hp E. destruct p as [|a p]; [now apply Hp|].
  simpl in E. inversion E as [[Ea Ep]]. now destruct p.
Qed.

(** Below a directory other than the root, no entry is recorded under
    ["/"]. *)
Lemma populate_below_keeps_root (n : nat) :
  forall p oid w,
    p <> "" -> p <> "/" ->
    hierarchy w !! StrKey "/" = None ->
    hierarchy (after (populate_hierarchy n p oid) w) !! StrKey "/" = None.
Proof.
  induction n as [|n IH]; intros p oid w Hp Hr Hw; [exact Hw|].
  unfold after. cbn [populate_hierarchy]. unfold bind at 1, get_list at 1.
  apply (for_each_keeps (fun w => hierarchy w !! StrKey "/" = None));
    [|exact Hw].
  intros j _ w0 Hw0. unfold after, bind at 1, record at 1.
  destruct (String.eqb_spec p "/") as [E|_]; [now destruct Hr|].
  assert (Hk : p +:+ "/" +:+ e_name j <> "/") by now apply slash_not_below.
  assert (Hi : hierarchy
                 (mkWorld (<[StrKey (p +:+ "/" +:+ e_name j) := e_oid j]>
                             (hierarchy w0)) (store w0) (calls w0))
               !! StrKey "/" = None).
  { cbn [hierarchy]. rewrite lookup_insert_ne; [exact Hw0|].
    intros X. apply Hk. now inversion X. }
  destruct (e_isfile j); [exact Hi|].
  apply IH; [|exact Hk|exact Hi]. now destruct p.
Qed.

(** [populate_hierarchy] from the root records nothing under ["/"] unless
    the root lists an entry without a name. *)
Lemma populate_root_keeps_root (n : nat) (w : world) :
  (forall j, In j (http_list (store w) (PInt 1)) -> e_name j <> "") ->
  hierarchy w !! StrKey "/" = None ->
  hierarchy (after (populate_hierarchy n "/" (PInt 1)) w) !! StrKey "/"
  = None.
Proof.
  intros Hn Hw. destruct n as [|n]; [exact Hw|].
  unfold after. cbn [populate_hierarchy]. unfold bind at 1, get_list at 1.
  apply (for_each_keeps (fun w => hierarchy w !! StrKey "/" = None));
    [|exact Hw].
  intros j Hj w0 Hw0. unfold after, bind at 1, record at 1.
  cbn [String.eqb Ascii.eqb Bool.eqb].
  specialize (Hn j Hj).
  assert (Hk : "" +:+ "/" +:+ e_name j <> "/").
  { simpl. intros E. inversion E. contradiction. }
  assert (Hi : hierarchy
                 (mkWorld (<[StrKey ("" +:+ "/" +:+ e_name j) := e_oid j]>
                             (hierarchy w0)) (store w0) (calls w0))
               !! StrKey "/" = None).
  { cbn [hierarchy]. rewrite lookup_insert_ne; [exact Hw0|].
    intros X. apply Hk. now inversion X. }
  destruct (e_isfile j); [exact Hi|].
  apply populate_below_keeps_root; [discriminate|exact Hk|exact Hi].
Qed.

(** No directory directly under the root can be made: ["/"] is never a key
    of the cache and is its own parent, so the ascent does not end. *)
Lemma ensure_under_root (n : nat) :
  forall (path : string) (op : pyval) (sec : option pyval) (w : world),
    (forall j, In j (http_list (store w) (PInt 1)) -> e_name j <> "") ->
    hierarchy w !! StrKey "/" = None ->
    path_str (path_parent (Path path)) = "/" ->
    exists w' cs,
      make_directory_tree n path op sec w = (Raise RecursionError, w') /\
      store w' = store w /\
      calls w' = (calls w ++ cs)%list /\ Forall is_listing cs.
Proof.
  induction n as [|n IH]; intros path op sec w Hn Hw Hp.
  { exists w, []. repeat split; [now rewrite app_nil_r|constructor]. }
  cbn [make_directory_tree]. cbv zeta. rewrite Hp. unfold bind at 1.
  rewrite (find_file_miss n "/" w Hw).
  destruct (so_populate_hierarchy is_listing (fun _ => I) n "/" (PInt 1) w)
    as (cs1 & C1 & F1).
  destruct (refreshed_populate n "/" (PInt 1) w) as (S1 & _).
  pose proof (populate_root_keeps_root n w Hn Hw) as K1.
  unfold after in C1, S1, K1.
  destruct (populate_hierarchy n "/" (PInt 1) w) as [[[]|e] w1] eqn:Ep;
    simpl in C1, S1, K1.
  - rewrite K1. cbn [default truthy negb]. unfold bind at 1. unfold bind at 1.
    destruct (IH "/" op sec w1) as (w2 & cs2 & E2 & S2 & C2 & F2);
      [now rewrite S1|exact K1|reflexivity|].
    rewrite E2. exists w2, (cs1 ++ cs2)%list. repeat split.
    + congruence.
    + now rewrite C2, C1, <- app_assoc.
    + now apply Forall_app.
  - apply populate_raises in Ep. subst e. exists w1, cs1. now repeat split.
Qed.

(** With an empty cache in front of a root that lists nothing, the ascent
    from any path sends listings of the root and nothing else. *)
Lemma ensure_without_root_trace (n : nat) :
  forall (path : string) (op : pyval) (sec : option pyval) (w : world),
    hierarchy w = ∅ -> http_list (store w) (PInt 1) = [] ->
    exists k,
      make_directory_tree n path op sec w
      = (Raise RecursionError,
         mkWorld ∅ (store w) (calls w ++ repeat (CList (PInt 1)) k)).
Proof.
  induction n as [|n IH]; intros path op sec w Hh Hl.
  { exists 0%nat. destruct w as [h s c]. simpl in *. subst h.
    now rewrite app_nil_r. }
  cbn [make_directory_tree]. unfold bind at 1.
  unfold find_file at 1, bind at 1, lookup_h at 1.
  rewrite Hh, lookup_empty. unfold bind at 1.
  destruct n as [|n].
  { exists 0%nat. destruct w as [h s c]. simpl in *. subst h.
    now rewrite app_nil_r. }
  rewrite (populate_nothing _ _ Hl). unfold bind at 1, lookup_h at 1.
  cbn [hierarchy]. rewrite Hh, lookup_empty. unfold ret at 1.
  cbn [truthy negb]. unfold bind at 1. unfold bind at 1.
  cbn [hierarchy store calls].
  destruct (IH (path_str (path_parent (Path path))) op sec
              (mkWorld ∅ (store w) (calls w ++ [CList (PInt 1)]))
              eq_refl Hl) as [k E].
  cbn [store calls] in E.
  destruct (make_directory_tree (S n) _ op sec _) as [o w'] eqn:E'.
  inversion E; subst. exists (S k). cbn [repeat].
  now rewrite <- app_assoc.
Qed.

End Ascent.

(** C1 (the code against the claim): [make_directory_tree] has no base
    case.  In front of an empty remote tree it returns for no path, no
    policy, no security tag and no depth of the stack: it sends listings
    of the root until the stack is exhausted, and no write.  The same
    holds, in front of any remote tree whose root lists no entry without
    a name, of every path directly under the root: ["/"] is no key of the
    cache and is its own parent.  So [make_directory_tree "/a/b/c"] on
    the empty tree creates nothing, and neither does
    [make_directory_tree "/x"] next to an existing directory. *)
Theorem ensure_has_no_base_case :
  (forall (SV : Services) (n : nat) (path : string) (op : pyval)
      (sec : option pyval) (w : world),
      hierarchy w = ∅ -> http_list (store w) (PInt 1) = [] ->
      exists k,
        make_directory_tree n path op sec w
        = (Raise RecursionError,
           mkWorld ∅ (store w) (calls w ++ repeat (CList (PInt 1)) k))) /\
  (forall (SV : Services) (n : nat) (path : string) (op : pyval)
      (sec : option pyval) (w : world),
      (forall j, In j (http_list (store w) (PInt 1)) -> e_name j <> "") ->
      hierarchy w !! StrKey "/" = None ->
      path_str (path_parent (Path path)) = "/" ->
      exists w' cs,
        make_directory_tree n path op sec w = (Raise RecursionError, w') /\
        store w' = store w /\
        calls w' = (calls w ++ cs)%list /\ Forall is_listing cs) /\
  path_str (path_parent (Path "/")) = "/" /\
  (let w := after (make_directory_tree 100 "/a/b/c" PNone None)
              (connected empty_tree) in
   result (make_directory_tree 100 "/a/b/c" PNone None) (connected empty_tree)
   = Raise RecursionError /\
   written (calls w) = [] /\ store w = empty_tree) /\
  (let w := after (make_directory_tree 100 "/x" PNone None)
              (connected tree_a) in
   result (make_directory_tree 100 "/x" PNone None) (connected tree_a)
   = Raise RecursionError /\
   written (calls w) = [] /\ store w = tree_a).
Proof.
  split; [|split; [|split; [|split]]].
  - intros SV n. apply ensure_without_root_trace.
  - intros SV n. apply ensure_under_root.
  - reflexivity.
  - vm_compute. repeat split; reflexivity.
  - vm_compute. repeat split; reflexivity.
Qed.

Lemma ensure_has_no_base_case_witness :
  exists k,
    make_directory_tree 1000 "/a/b/c" PNone None (connected empty_tree)
    = (Raise RecursionError,
       mkWorld ∅ (store (connected empty_tree))
         (calls (connected empty_tree) ++ repeat (CList (PInt 1)) k)).
Proof.
  apply (proj1 ensure_has_no_base_case scenario 1000 "/a/b/c" PNone None
           (connected empty_tree)); vm_compute; reflexivity.
Defined.
